(** * Verification of the fixture sanitizer of [scripts/capture_codex_fixture.py]

    The development embeds the [Sanitizer] class of the script: the hash
    tokenizer [_hash], the stable pseudonymizer ([sanitize_path],
    [sanitize_url]), the text redaction [sanitize_text], the field classifier
    [sanitize_generic_string] and the recursive record walk [sanitize];
    and the loop of [main] that runs the class over the lines of the session
    files.

    Python values are modelled as follows.
    - [str] is a list of Unicode code points ([pystr]); [len] is the list
      length.  Lone surrogates are legal [str] contents (the [json] module
      produces them from an escaped lone surrogate) and make
      [s.encode("utf-8")] raise [UnicodeEncodeError]; the model keeps that
      exception.
    - the three [dict]s of a [Sanitizer] are finite maps ([gmap]).
    - a JSON object is an association list in insertion order; [out[k] = v]
      is [dict_set].
    - methods that read or write the maps live in a state and exception monad
      [M].
    - the interpreter's stack is not part of the class model: [sanitize]
      stands for the call while the stack lasts.  In the loop of [main],
      running out of stack ([RecursionError]) is an outcome of its own,
      decided by a parameter, as is every exception of [json.loads] that the
      loop does not catch. *)

From Stdlib Require Import NArith String Ascii.
From Stdlib Require Import Decimal DecimalString DecimalPos DecimalN.
From stdpp Require Import gmap list.

Open Scope N_scope.

(** ** Strings *)

(** A Python [str]: the sequence of its code points. *)
Abbreviation pystr := (list N).

(** A literal of the source text (ASCII only in this script). *)
Definition lit (s : string) : pystr :=
  List.map N_of_ascii (list_ascii_of_string s).

(** A code point that UTF-8 can encode: below 0x110000 and not a surrogate. *)
Definition is_scalar (c : N) : bool :=
  (c <? 0xD800) || ((0xDFFF <? c) && (c <? 0x110000)).

(** The bytes of one code point under [str.encode("utf-8")] (strict error
    handler); [None] stands for [UnicodeEncodeError]. *)
Definition utf8_char (c : N) : option (list N) :=
  if c <? 0x80 then Some [c]
  else if c <? 0x800 then
    Some [N.lor 0xC0 (N.shiftr c 6); N.lor 0x80 (N.land c 0x3F)]
  else if negb (is_scalar c) then None
  else if c <? 0x10000 then
    Some [N.lor 0xE0 (N.shiftr c 12);
          N.lor 0x80 (N.land (N.shiftr c 6) 0x3F);
          N.lor 0x80 (N.land c 0x3F)]
  else
    Some [N.lor 0xF0 (N.shiftr c 18);
          N.lor 0x80 (N.land (N.shiftr c 12) 0x3F);
          N.lor 0x80 (N.land (N.shiftr c 6) 0x3F);
          N.lor 0x80 (N.land c 0x3F)].

Fixpoint utf8_encode (s : pystr) : option (list N) :=
  match s with
  | [] => Some []
  | c :: s' =>
      match utf8_char c, utf8_encode s' with
      | Some bs, Some rest => Some (bs ++ rest)
      | _, _ => None
      end
  end.

(** [a.startswith(p)] *)
Fixpoint startswith (p s : pystr) : bool :=
  match p, s with
  | [], _ => true
  | _ :: _, [] => false
  | a :: p', b :: s' => (a =? b) && startswith p' s'
  end.

(** [p in s] for strings: [p] occurs as a contiguous slice of [s]. *)
Fixpoint contains (p s : pystr) : bool :=
  startswith p s ||
  match s with
  | [] => false
  | _ :: s' => contains p s'
  end.

(** [a.endswith(p)] *)
Definition endswith (p s : pystr) : bool :=
  startswith (rev p) (rev s).

Definition pystr_eqb (a b : pystr) : bool := bool_decide (a = b).

(** [k in KEYS] for a set literal of strings. *)
Definition key_in (k : pystr) (keys : list pystr) : bool :=
  existsb (pystr_eqb k) keys.

(** [str(n)] for a non-negative integer. *)
Definition str_of_N (n : N) : pystr :=
  lit (NilZero.string_of_uint (N.to_uint n)).

(** [int(s)] for a decimal numeral; used to read a [len=] field back. *)
Definition int_of_str (s : pystr) : option N :=
  option_map N.of_uint
    (NilZero.uint_of_string (string_of_list_ascii (List.map ascii_of_N s))).

(** ** SHA-256 ([hashlib.sha256], FIPS 180-4) on 32-bit words held in [N] *)

Module SHA256.

Definition mask32 : N := 0xFFFFFFFF.
Definition add32 (a b : N) : N := N.land (a + b) mask32.
Definition rotr (n x : N) : N :=
  N.lor (N.shiftr x n) (N.land (N.shiftl x (32 - n)) mask32).
Definition shr (n x : N) : N := N.shiftr x n.
Definition not32 (x : N) : N := N.lxor x mask32.

Definition Ch (x y z : N) : N :=
  N.lxor (N.land x y) (N.land (not32 x) z).
Definition Maj (x y z : N) : N :=
  N.lxor (N.lxor (N.land x y) (N.land x z)) (N.land y z).
Definition Sigma0 (x : N) : N :=
  N.lxor (N.lxor (rotr 2 x) (rotr 13 x)) (rotr 22 x).
Definition Sigma1 (x : N) : N :=
  N.lxor (N.lxor (rotr 6 x) (rotr 11 x)) (rotr 25 x).
Definition sigma0 (x : N) : N :=
  N.lxor (N.lxor (rotr 7 x) (rotr 18 x)) (shr 3 x).
Definition sigma1 (x : N) : N :=
  N.lxor (N.lxor (rotr 17 x) (rotr 19 x)) (shr 10 x).

(** The constants of the standard are fractional parts of roots of the
    first primes: 32 bits of the cube roots of the first 64 primes for the
    round constants, of the square roots of the first 8 for the initial
    chaining value. *)
Definition is_prime (n : nat) : bool :=
  (2 <=? n)%nat &&
  forallb (fun k => negb (Nat.modulo n k =? 0)%nat) (seq 2 (n - 2)).

Definition primes : list N :=
  Eval vm_compute in List.map N.of_nat (List.filter is_prime (seq 2 310)).

(** The integer [k]-th root of [x], found bit by bit from bit [bits - 1]. *)
Fixpoint iroot (k : N) (bits : nat) (x r : N) : N :=
  match bits with
  | O => r
  | S b =>
      let c := N.lor r (N.shiftl 1 (N.of_nat b)) in
      iroot k b x (if c ^ k <=? x then c else r)
  end.

(** The first 32 bits of the fractional part of the [k]-th root of [p]. *)
Definition root_frac (k p : N) : N :=
  N.land (iroot k 40 (N.shiftl p (32 * k)) 0) mask32.

Definition K : list N := Eval vm_compute in List.map (root_frac 3) primes.

(** The eight working variables, also the chaining value. *)
Record state := State {
  ha : N; hb : N; hc : N; hd : N; he : N; hf : N; hg : N; hh : N }.

Definition H0 : state :=
  Eval vm_compute in
    let r (i : nat) := root_frac 2 (nth i primes 0) in
    State (r 0%nat) (r 1%nat) (r 2%nat) (r 3%nat)
          (r 4%nat) (r 5%nat) (r 6%nat) (r 7%nat).

(** Padding: the bit 1, zeros up to 56 mod 64, the bit length on 8 bytes. *)
Definition be_bytes (width : nat) (x : N) : list N :=
  List.map (fun i => N.land (N.shiftr x (8 * N.of_nat i)) 0xFF)
           (rev (seq 0 width)).

Definition pad (msg : list N) : list N :=
  let len := N.of_nat (length msg) in
  let zeros := N.to_nat ((64 - (len + 9) mod 64) mod 64) in
  msg ++ [0x80] ++ repeat 0 zeros ++ be_bytes 8 (8 * len).

Fixpoint words (n : nat) (bs : list N) : list N :=
  match n with
  | O => []
  | S n' =>
      match bs with
      | b0 :: b1 :: b2 :: b3 :: rest =>
          (N.shiftl b0 24 + N.shiftl b1 16 + N.shiftl b2 8 + b3)
            :: words n' rest
      | _ => []
      end
  end.

(** Message schedule: 16 words of the block extended to 64. *)
Fixpoint extend (n : nat) (w : list N) : list N :=
  match n with
  | O => w
  | S n' =>
      let t := length w in
      let at_ (i : nat) := nth (t - i) w 0 in
      extend n'
        (w ++ [add32 (add32 (sigma1 (at_ 2%nat)) (at_ 7%nat))
                     (add32 (sigma0 (at_ 15%nat)) (at_ 16%nat))])
  end.

Definition round (s : state) (kw : N * N) : state :=
  let '(k, w) := kw in
  let t1 := add32 (add32 (add32 (hh s) (Sigma1 (he s)))
                         (add32 (Ch (he s) (hf s) (hg s)) k)) w in
  let t2 := add32 (Sigma0 (ha s)) (Maj (ha s) (hb s) (hc s)) in
  State (add32 t1 t2) (ha s) (hb s) (hc s)
        (add32 (hd s) t1) (he s) (hf s) (hg s).

Definition compress (h : state) (block : list N) : state :=
  let w := extend 48 (words 16 block) in
  let s := fold_left round (combine K w) h in
  State (add32 (ha h) (ha s)) (add32 (hb h) (hb s))
        (add32 (hc h) (hc s)) (add32 (hd h) (hd s))
        (add32 (he h) (he s)) (add32 (hf h) (hf s))
        (add32 (hg h) (hg s)) (add32 (hh h) (hh s)).

Fixpoint blocks (n : nat) (bs : list N) (h : state) : state :=
  match n with
  | O => h
  | S n' => blocks n' (skipn 64 bs) (compress h (firstn 64 bs))
  end.

Definition digest (msg : list N) : state :=
  let p := pad msg in
  blocks (length p / 64) p H0.

(** Lowercase hexadecimal, as [hexdigest] prints it. *)
Definition hex_digit (n : N) : N :=
  if n <? 10 then 48 + n else 87 + n.

Definition hex32 (x : N) : pystr :=
  [ hex_digit (N.land (N.shiftr x 28) 0xF);
    hex_digit (N.land (N.shiftr x 24) 0xF);
    hex_digit (N.land (N.shiftr x 20) 0xF);
    hex_digit (N.land (N.shiftr x 16) 0xF);
    hex_digit (N.land (N.shiftr x 12) 0xF);
    hex_digit (N.land (N.shiftr x 8) 0xF);
    hex_digit (N.land (N.shiftr x 4) 0xF);
    hex_digit (N.land x 0xF) ].

Definition hexdigest (msg : list N) : pystr :=
  let s := digest msg in
  hex32 (ha s) ++ hex32 (hb s) ++ hex32 (hc s) ++ hex32 (hd s) ++
  hex32 (he s) ++ hex32 (hf s) ++ hex32 (hg s) ++ hex32 (hh s).

End SHA256.

(** ** Regular expressions

    The patterns of the script use classes, sequencing, an optional group,
    bounded and unbounded repetition and the anchors [^] and [$].  They are
    matched here by Brzozowski derivatives; [re.match] on a pattern of the
    form [^X$] succeeds exactly when the whole subject is in the language of
    [X], or is such a word followed by one final newline (Python's [$]). *)

Module Re.

Inductive regex : Type :=
| Void
| Eps
| Cls (p : N -> bool)
| Seq (r s : regex)
| Alt (r s : regex)
| Star (r : regex).

Fixpoint nullable (r : regex) : bool :=
  match r with
  | Void => false
  | Eps => true
  | Cls _ => false
  | Seq r s => nullable r && nullable s
  | Alt r s => nullable r || nullable s
  | Star _ => true
  end.

Definition seq_ (r s : regex) : regex :=
  match r, s with
  | Void, _ => Void
  | _, Void => Void
  | Eps, _ => s
  | _, _ => Seq r s
  end.

Definition alt_ (r s : regex) : regex :=
  match r, s with
  | Void, _ => s
  | _, Void => r
  | _, _ => Alt r s
  end.

Fixpoint deriv (c : N) (r : regex) : regex :=
  match r with
  | Void => Void
  | Eps => Void
  | Cls p => if p c then Eps else Void
  | Seq r s =>
      if nullable r then alt_ (seq_ (deriv c r) s) (deriv c s)
      else seq_ (deriv c r) s
  | Alt r s => alt_ (deriv c r) (deriv c s)
  | Star r => seq_ (deriv c r) (Star r)
  end.

Fixpoint fullmatch (r : regex) (s : pystr) : bool :=
  match s with
  | [] => nullable r
  | c :: s' => fullmatch (deriv c r) s'
  end.

Definition chr (a : ascii) : regex := Cls (N.eqb (N_of_ascii a)).
Definition opt (r : regex) : regex := Alt r Eps.
Definition plus (r : regex) : regex := Seq r (Star r).

(** [r{n}] and [r{n,}] *)
Fixpoint rep (n : nat) (r : regex) : regex :=
  match n with
  | O => Eps
  | S n' => Seq r (rep n' r)
  end.
Definition at_least (n : nat) (r : regex) : regex := Seq (rep n r) (Star r).

Fixpoint cat (rs : list regex) : regex :=
  match rs with
  | [] => Eps
  | r :: rs' => Seq r (cat rs')
  end.

(** [$] at the end of a pattern: the end of the subject, or just before a
    newline that ends the subject. *)
Definition dollar : regex := opt (Cls (N.eqb 10)).

(** [re.match(r"^X$", s)] as a truth value. *)
Definition match_ (x : regex) (s : pystr) : bool :=
  fullmatch (Seq x dollar) s.

End Re.

(** ** ASCII parts of the character database *)

Definition is_ascii (c : N) : bool := c <? 128.
Definition in_range (lo hi c : N) : bool := (lo <=? c) && (c <=? hi).
Definition ascii_digit (c : N) : bool := in_range 48 57 c.
Definition ascii_upper_letter (c : N) : bool := in_range 65 90 c.
Definition ascii_lower_letter (c : N) : bool := in_range 97 122 c.
Definition ascii_tolower (c : N) : N :=
  if ascii_upper_letter c then c + 32 else c.
Definition ascii_toupper (c : N) : N :=
  if ascii_lower_letter c then c - 32 else c.

(** A character database that knows ASCII only (text outside ASCII has no
    case, and there is no digit outside ASCII): used to run the model on
    concrete records whose text is ASCII. *)
Definition ascii_only_casemap (s : pystr) : pystr := s.
Definition ascii_only_decimal (c : N) : bool := false.

(** ** Results and exceptions *)

(** The outcome of a call: a value, or the one exception the class can
    raise, [UnicodeEncodeError] from [s.encode("utf-8")]. *)
Inductive result (A : Type) : Type :=
| Ok (a : A)
| UnicodeEncodeError.
Arguments Ok {A} a.
Arguments UnicodeEncodeError {A}.

Definition result_map {A B} (f : A -> B) (r : result A) : result B :=
  match r with
  | Ok a => Ok (f a)
  | UnicodeEncodeError => UnicodeEncodeError
  end.

(** [hashlib.sha256(s.encode("utf-8")).hexdigest()[:n]] *)
Definition _hash (s : pystr) (n : nat) : result pystr :=
  match utf8_encode s with
  | Some bytes => Ok (firstn n (SHA256.hexdigest bytes))
  | None => UnicodeEncodeError
  end.

(** ** The pseudonymizer state *)

Record Sanitizer : Type := mkSanitizer {
  path_map : gmap (list N) (list N);
  url_map : gmap (list N) (list N);
  string_map : gmap (list N) (list N) }.

(** [Sanitizer.__init__] *)
Definition init : Sanitizer := mkSanitizer ∅ ∅ ∅.

Definition M (A : Type) : Type := Sanitizer -> result (A * Sanitizer).

Definition ret {A} (a : A) : M A := fun st => Ok (a, st).
Definition bind {A B} (m : M A) (k : A -> M B) : M B :=
  fun st =>
    match m st with
    | Ok (a, st') => k a st'
    | UnicodeEncodeError => UnicodeEncodeError
    end.
Definition get : M Sanitizer := fun st => Ok (st, st).
Definition put (st : Sanitizer) : M unit := fun _ => Ok (tt, st).
Definition lift {A} (r : result A) : M A :=
  fun st => result_map (fun a => (a, st)) r.

Notation "x <~ m ;; k" := (bind m (fun x => k))
  (at level 100, m at next level, right associativity).

(** The value a call returns, without the state it leaves. *)
Definition value_of {A} (r : result (A * Sanitizer)) : result A :=
  result_map fst r.

(** [self.path_map[value] = token] and [self.url_map[value] = token] *)
Definition set_path (value token : pystr) : M unit :=
  st <~ get ;;
  put (mkSanitizer (<[value := token]> (path_map st)) (url_map st)
                   (string_map st)).
Definition set_url (value token : pystr) : M unit :=
  st <~ get ;;
  put (mkSanitizer (path_map st) (<[value := token]> (url_map st))
                   (string_map st)).

Definition sanitize_path (value : pystr) : M pystr :=
  st <~ get ;;
  match path_map st !! value with
  | Some token => ret token
  | None =>
      h <~ lift (_hash value 10) ;;
      let token := lit "/redacted/path/" ++ h in
      _ <~ set_path value token ;;
      ret token
  end.

Definition url_marker (value : pystr) : bool :=
  startswith (lit "https://") value || startswith (lit "http://") value
  || startswith (lit "git@") value.

Definition sanitize_url (value : pystr) : M pystr :=
  if url_marker value then
    st <~ get ;;
    match url_map st !! value with
    | Some token => ret token
    | None =>
        h <~ lift (_hash value 10) ;;
        let token := lit "redacted://url/" ++ h in
        _ <~ set_url value token ;;
        ret token
    end
  else ret value.

(** [[f(v) for v in vs]] *)
Definition for_each {A B} (f : A -> M B) : list A -> M (list B) :=
  fix each (vs : list A) : M (list B) :=
    match vs with
    | [] => ret []
    | v :: rest =>
        v' <~ f v ;;
        r <~ each rest ;;
        ret (v' :: r)
    end.

(** ** JSON values, as [json.loads] builds them

    [None], [bool], [int], [float] (kept as its 64-bit pattern; the class
    never looks inside a number), [str], [list] and [dict]. *)

#[local] Unset Elimination Schemes.
Inductive json : Type :=
| JNull
| JBool (b : bool)
| JInt (n : Z)
| JFloat (bits : N)
| JStr (s : pystr)
| JList (elems : list json)
| JDict (items : list (pystr * json)).
#[local] Set Elimination Schemes.

(** [out[k] = v] on an insertion-ordered dict. *)
Fixpoint dict_set (k : pystr) (v : json) (d : list (pystr * json))
  : list (pystr * json) :=
  match d with
  | [] => [(k, v)]
  | (k', v') :: d' =>
      if pystr_eqb k' k then (k', v) :: d' else (k', v') :: dict_set k v d'
  end.

(** [for k, v in its: out[k] = f(k, v)] *)
Definition for_items (f : pystr -> json -> M json)
  : list (pystr * json) -> list (pystr * json) -> M (list (pystr * json)) :=
  fix loop (its out : list (pystr * json)) : M (list (pystr * json)) :=
    match its with
    | [] => ret out
    | (k, v) :: rest =>
        v' <~ f k v ;;
        loop rest (dict_set k v' out)
    end.

(** The keys of every dict are pairwise distinct (a Python [dict]). *)
Fixpoint wf_json (x : json) : Prop :=
  match x with
  | JList elems => List.fold_right (fun v acc => wf_json v /\ acc) True elems
  | JDict items =>
      NoDup (List.map fst items) /\
      List.fold_right (fun kv acc => wf_json (snd kv) /\ acc) True items
  | _ => True
  end.

(** Every string leaf can be encoded as UTF-8. *)
Fixpoint encodable (x : json) : Prop :=
  match x with
  | JStr s => utf8_encode s <> None
  | JList elems => List.fold_right (fun v acc => encodable v /\ acc) True elems
  | JDict items =>
      List.fold_right (fun kv acc => encodable (snd kv) /\ acc) True items
  | _ => True
  end.

(** The shape of a value: the value with every string leaf blanked. *)
Fixpoint shape (x : json) : json :=
  match x with
  | JStr _ => JStr []
  | JList elems => JList (List.map shape elems)
  | JDict items => JDict (List.map (fun kv => (fst kv, shape (snd kv))) items)
  | _ => x
  end.

(** Addressing inside a value: a path of dict keys and list indices. *)
Inductive step : Type :=
| Key (k : pystr)
| Idx (i : nat).

Fixpoint dict_get (k : pystr) (d : list (pystr * json)) : option json :=
  match d with
  | [] => None
  | (k', v) :: d' => if pystr_eqb k' k then Some v else dict_get k d'
  end.

Fixpoint at_path (p : list step) (x : json) : option json :=
  match p with
  | [] => Some x
  | Key k :: p' =>
      match x with
      | JDict items =>
          match dict_get k items with
          | Some v => at_path p' v
          | None => None
          end
      | _ => None
      end
  | Idx i :: p' =>
      match x with
      | JList elems =>
          match nth_error elems i with
          | Some v => at_path p' v
          | None => None
          end
      | _ => None
      end
  end.

(** The key under which the classifier sees the leaf at path [p]: the last
    dict key on the way, or the key the walk started with. *)
Fixpoint context_key (parent_key : pystr) (p : list step) : pystr :=
  match p with
  | [] => parent_key
  | Key k :: p' => context_key k p'
  | Idx _ :: p' => context_key parent_key p'
  end.

(** ** Predicates on the pseudonymizer state *)

(** Lowercase hexadecimal digit. *)
Definition is_hex (c : N) : bool := in_range 48 57 c || in_range 97 102 c.

(** Every stored path token is the one its original hashes to. *)
Definition path_ok (st : Sanitizer) : Prop :=
  forall v t, path_map st !! v = Some t ->
    exists h, _hash v 10 = Ok h /\ t = lit "/redacted/path/" ++ h.

Definition url_ok (st : Sanitizer) : Prop :=
  forall v t, url_map st !! v = Some t ->
    exists h, _hash v 10 = Ok h /\ t = lit "redacted://url/" ++ h.

Definition consistent (st : Sanitizer) : Prop := path_ok st /\ url_ok st.

(** [st'] holds every entry of [st], with the same token. *)
Definition extends (st st' : Sanitizer) : Prop :=
  path_map st ⊆ path_map st' /\ url_map st ⊆ url_map st' /\
  string_map st' = string_map st.

(** A computation only adds entries to the maps and keeps them consistent. *)
Definition sound {A} (m : M A) : Prop :=
  forall st a st', m st = Ok (a, st') ->
    extends st st' /\ (consistent st -> consistent st').

(** The outcome of a computation does not depend on which consistent state
    it starts from. *)
Definition stable {A} (m : M A) : Prop :=
  forall st1 st2, consistent st1 -> consistent st2 ->
    value_of (m st1) = value_of (m st2).

(** A computation raises [UnicodeEncodeError] from no state. *)
Definition total {A} (m : M A) : Prop :=
  forall st, exists a st', m st = Ok (a, st').

(** A threaded run of [f] over a list: the states are chained, the results
    collected in order. *)
Inductive run_list {A B} (f : A -> M B)
  : list A -> Sanitizer -> list B -> Sanitizer -> Prop :=
| run_nil st : run_list f [] st [] st
| run_cons a l st b st1 l' st' :
    f a st = Ok (b, st1) ->
    run_list f l st1 l' st' ->
    run_list f (a :: l) st (b :: l') st'.

(** The dict a [for_items] loop builds from the sanitized values. *)
Definition set_all (its : list (pystr * json)) (vs : list json)
  (out : list (pystr * json)) : list (pystr * json) :=
  fold_left (fun o kv => dict_set (fst (fst kv)) (snd kv) o)
            (combine its vs) out.

(** ** Example records *)

Definition user_message_record : json :=
  JDict [ (lit "type", JStr (lit "user_message"));
          (lit "cwd", JStr (lit "/Users/alice/proj"));
          (lit "content", JStr (lit "fix the bug in parser.py")) ].

Definition second_record : json :=
  JDict [ (lit "type", JStr (lit "tool_call"));
          (lit "payload",
           JDict [ (lit "cwd", JStr (lit "/Users/alice/proj")) ]) ].

Definition timestamp_record : json :=
  JDict [ (lit "timestamp", JStr (lit "2026-02-23T10:00:00Z")) ].

(** A lone surrogate, as [json.loads] returns it for an escaped one. *)
Definition lone_surrogate : pystr := [0xD800].

(** [{"content":"\ud800"}] as [json.loads] reads it. *)
Definition surrogate_record : json :=
  JDict [ (lit "content", JStr lone_surrogate) ].

(** The state after [user_message_record] went through a fresh sanitizer. *)
Definition after_user_message : Sanitizer :=
  mkSanitizer {[ lit "/Users/alice/proj" := lit "/redacted/path/2711bd02af" ]}
              ∅ ∅.

(** ** The classifier and the record walk *)

Section WithCharacterDatabase.

(** The interpreter's Unicode tables are not part of the repository:
    [str.lower] and [str.upper] on text that is not pure ASCII, and the
    decimal digits ([\d]) beyond ASCII. *)
Variable unicode_lower : pystr -> pystr.
Variable unicode_upper : pystr -> pystr.
Variable unicode_decimal : N -> bool.

(** [s.lower()] and [s.upper()] *)
Definition lower (s : pystr) : pystr :=
  if forallb is_ascii s then List.map ascii_tolower s else unicode_lower s.
Definition upper (s : pystr) : pystr :=
  if forallb is_ascii s then List.map ascii_toupper s else unicode_upper s.

(** [\d] in a [str] pattern *)
Definition digit (c : N) : bool :=
  if is_ascii c then ascii_digit c else unicode_decimal c.

Definition re_d : Re.regex := Re.Cls digit.

(** [^\d{4}-\d{2}-\d{2}T\d{2}:\d{2}:\d{2}(?:\.\d+)?Z$] *)
Definition ISO_TS_RE : Re.regex :=
  Re.cat [ Re.rep 4 re_d; Re.chr "-"; Re.rep 2 re_d; Re.chr "-";
           Re.rep 2 re_d; Re.chr "T"; Re.rep 2 re_d; Re.chr ":";
           Re.rep 2 re_d; Re.chr ":"; Re.rep 2 re_d;
           Re.opt (Re.Seq (Re.chr ".") (Re.plus re_d)); Re.chr "Z" ].

(** [^\d{4}-\d{2}-\d{2}$] *)
Definition DATE_RE : Re.regex :=
  Re.cat [ Re.rep 4 re_d; Re.chr "-"; Re.rep 2 re_d; Re.chr "-";
           Re.rep 2 re_d ].

(** [[0-9a-f]] under [re.IGNORECASE]: no character outside ASCII folds to
    a hexadecimal letter, so the class is [0-9a-fA-F]. *)
Definition hex_ci (c : N) : bool :=
  in_range 48 57 c || in_range 97 102 c || in_range 65 70 c.

(** [^[0-9a-f]{8,}-[0-9a-f-]{8,}$], case-insensitive *)
Definition UUIDISH_RE : Re.regex :=
  Re.cat [ Re.at_least 8 (Re.Cls hex_ci); Re.chr "-";
           Re.at_least 8 (Re.Cls (fun c => hex_ci c || (c =? 45))) ].

(** [^[A-Za-z0-9._:/-]+$] *)
Definition enum_class (c : N) : bool :=
  in_range 65 90 c || in_range 97 122 c || in_range 48 57 c
  || (c =? 46) || (c =? 95) || (c =? 58) || (c =? 47) || (c =? 45).
Definition ENUM_RE : Re.regex := Re.plus (Re.Cls enum_class).

(** Declared by the script; no method of the class consults it. *)
Definition PRESERVE_STRING_KEYS : list pystr :=
  List.map lit
    [ "type"; "role"; "id"; "session_id"; "sessionId"; "model";
      "model_provider"; "source"; "originator"; "cli_version";
      "commit_hash"; "branch"; "state"; "status"; "repository_url"; "cwd";
      "timestamp"; "createdAt"; "updatedAt" ]%string.

Definition PATHISH_KEYS : list pystr :=
  List.map lit
    [ "cwd"; "workdir"; "path"; "file"; "filePath";
      "entrypoint_path" ]%string.

Definition URLISH_KEYS : list pystr :=
  List.map lit [ "repository_url"; "url"; "href"; "webhookPath" ]%string.

Definition TEXTISH_KEYS : list pystr :=
  List.map lit
    [ "message"; "text"; "content"; "prompt"; "justification";
      "description"; "body"; "summary"; "question"; "cmd"; "instruction";
      "developer_instructions"; "user_instructions"; "base_instructions";
      "input"; "arguments"; "output"; "last_agent_message"; "new_str";
      "selection_with_ellipsis" ]%string.

(** The set literal of the fifth test of the classifier. *)
Definition ENUM_KEYS : list pystr :=
  List.map lit
    [ "model"; "model_provider"; "cli_version"; "type"; "role"; "source";
      "originator" ]%string.

(** The keys the specification lists as always preserved. *)
Definition VERBATIM_KEYS : list pystr :=
  List.map lit
    [ "type"; "role"; "model"; "model_provider"; "cli_version" ]%string.

(** The set literal of the sixth test. *)
Definition ID_KEYS : list pystr :=
  List.map lit [ "id"; "session_id"; "sessionId" ]%string.

(** [a or b] on strings *)
Definition or_else (a b : pystr) : pystr :=
  match a with
  | [] => b
  | _ => a
  end.

(** The f-string of [sanitize_text]. *)
Definition placeholder (key_prefix : pystr) (len : nat) (digest : pystr)
  : pystr :=
  lit "[REDACTED_" ++ upper key_prefix ++ lit " len=" ++
  str_of_N (N.of_nat len) ++ lit " sha=" ++ digest ++ lit "]".

Definition sanitize_text (key value : pystr) : M pystr :=
  let key_prefix := or_else key (lit "text") in
  digest <~ lift (_hash value 8) ;;
  ret (placeholder key_prefix (length value) digest).

Definition sanitize_generic_string (key value : pystr) : M pystr :=
  if key_in key PATHISH_KEYS then sanitize_path value
  else if key_in key URLISH_KEYS then sanitize_url value
  else if Re.match_ ISO_TS_RE value || Re.match_ DATE_RE value then
    ret value
  else if endswith (lit "timestamp") (lower key)
          || endswith (lit "_timestamp") (lower key) then
    ret value
  else if key_in key ENUM_KEYS then ret value
  else if key_in key ID_KEYS && Re.match_ UUIDISH_RE value then ret value
  else if key_in key TEXTISH_KEYS then sanitize_text key value
  else if startswith (lit "/Users/") value || startswith (lit "~/") value
          || startswith (lit "/") value then
    sanitize_path value
  else if contains (lit "://") value || startswith (lit "git@") value then
    sanitize_url value
  else if (length value <=? 40)%nat && Re.match_ ENUM_RE value then
    ret value
  else sanitize_text (or_else key (lit "string")) value.

(** The walk.  It calls itself once for every level of nesting and has no
    guard of its own: a value nested deeper than the interpreter's stack
    lasts ends the call with [RecursionError], at a depth that is the
    interpreter's to choose.  [result] has no such outcome: [sanitize] gives
    what the call does while the stack lasts. *)
Fixpoint sanitize (obj : json) (parent_key : pystr) {struct obj} : M json :=
  match obj with
  | JDict items =>
      out <~ for_items (fun k v => sanitize v k) items [] ;;
      ret (JDict out)
  | JList elems =>
      out <~ for_each (fun v => sanitize v parent_key) elems ;;
      ret (JList out)
  | JStr s =>
      s' <~ sanitize_generic_string parent_key s ;;
      ret (JStr s')
  | _ => ret obj
  end.

(** *** Runs of the class *)

(** One call of a method on a [Sanitizer]. *)
Inductive call : Type :=
| CallPath (value : pystr)
| CallUrl (value : pystr)
| CallText (key value : pystr)
| CallGeneric (key value : pystr)
| CallSanitize (obj : json) (parent_key : pystr).

(** The state a call leaves when it returns. *)
Definition exec (c : call) (st : Sanitizer) : result Sanitizer :=
  match c with
  | CallPath v => result_map snd (sanitize_path v st)
  | CallUrl v => result_map snd (sanitize_url v st)
  | CallText k v => result_map snd (sanitize_text k v st)
  | CallGeneric k v => result_map snd (sanitize_generic_string k v st)
  | CallSanitize obj pk => result_map snd (sanitize obj pk st)
  end.

(** The states a run can be in after any sequence of calls that returned. *)
Inductive reachable_from (st : Sanitizer) : Sanitizer -> Prop :=
| reach_here : reachable_from st st
| reach_call c st1 st2 :
    reachable_from st st1 -> exec c st1 = Ok st2 -> reachable_from st st2.

Definition reachable : Sanitizer -> Prop := reachable_from init.

(** *** The classifier without the maps

    What each method returns when the maps are left out: the token of a
    value is recomputed from the value each time.  The theorems below show
    that in every reachable state the class returns exactly these. *)

Definition path_token (value : pystr) : result pystr :=
  result_map (app (lit "/redacted/path/")) (_hash value 10).

Definition url_token (value : pystr) : result pystr :=
  if url_marker value
  then result_map (app (lit "redacted://url/")) (_hash value 10)
  else Ok value.

Definition redaction (key value : pystr) : result pystr :=
  result_map (placeholder (or_else key (lit "text")) (length value))
             (_hash value 8).

Definition classify (key value : pystr) : result pystr :=
  if key_in key PATHISH_KEYS then path_token value
  else if key_in key URLISH_KEYS then url_token value
  else if Re.match_ ISO_TS_RE value || Re.match_ DATE_RE value then
    Ok value
  else if endswith (lit "timestamp") (lower key)
          || endswith (lit "_timestamp") (lower key) then
    Ok value
  else if key_in key ENUM_KEYS then Ok value
  else if key_in key ID_KEYS && Re.match_ UUIDISH_RE value then Ok value
  else if key_in key TEXTISH_KEYS then redaction key value
  else if startswith (lit "/Users/") value || startswith (lit "~/") value
          || startswith (lit "/") value then
    path_token value
  else if contains (lit "://") value || startswith (lit "git@") value then
    url_token value
  else if (length value <=? 40)%nat && Re.match_ ENUM_RE value then
    Ok value
  else redaction (or_else key (lit "string")) value.

(** *** Properties of computations *)

(** A computation keeps the state predicate [P]. *)
Definition preserves (P : Sanitizer -> Prop) {A} (m : M A) : Prop :=
  forall st a st', m st = Ok (a, st') -> P st -> P st'.

(** Run again in any later state, a computation returns what it returned
    and stores nothing. *)
Definition replays {A} (m : M A) : Prop :=
  forall st a st1 st2,
    m st = Ok (a, st1) -> extends st1 st2 -> m st2 = Ok (a, st2).

(** The number of stored tokens. *)
Definition entries (st : Sanitizer) : nat :=
  size (path_map st) + size (url_map st).

(** A computation stores at most [n] tokens. *)
Definition stores_at_most (n : nat) {A} (m : M A) : Prop :=
  forall st a st', m st = Ok (a, st') -> (entries st' <= entries st + n)%nat.

(** The number of string leaves of a value. *)
Fixpoint count_strings (x : json) : nat :=
  match x with
  | JStr _ => 1
  | JList elems =>
      List.fold_right (fun v n => count_strings v + n)%nat 0%nat elems
  | JDict items =>
      List.fold_right (fun kv n => count_strings (snd kv) + n)%nat 0%nat items
  | _ => 0
  end.

(** A computation on the string [v] stores nothing, or exactly one new
    entry: [v] with the token it returns, in one of the two maps. *)
Definition stores_own_entry (v : pystr) (m : M pystr) : Prop :=
  forall st t st', m st = Ok (t, st') ->
    st' = st \/
    (path_map st !! v = None /\
     st' = mkSanitizer (<[v := t]> (path_map st)) (url_map st)
                       (string_map st)) \/
    (url_map st !! v = None /\
     st' = mkSanitizer (path_map st) (<[v := t]> (url_map st))
                       (string_map st)).

(** Every key of the URL map begins with a URL marker. *)
Definition url_keys_marked (st : Sanitizer) : Prop :=
  forall v t, url_map st !! v = Some t -> url_marker v = true.

(** The characters a pattern can consume: those some class of it accepts. *)
Fixpoint consumes (r : Re.regex) (c : N) : bool :=
  match r with
  | Re.Void => false
  | Re.Eps => false
  | Re.Cls p => p c
  | Re.Seq r s => consumes r c || consumes s c
  | Re.Alt r s => consumes r c || consumes s c
  | Re.Star r => consumes r c
  end.

(** *** The transcoder: the loop of [main] over the session files

    [main] reads every session file line by line, skips blank lines, parses
    each other line with [json.loads], writes one JSON document per line and
    tallies the lines by type.  Files are modelled as lists of lines and
    what is written as the list of documents handed to [json.dumps]; the
    parser and the interpreter's stack are not part of the repository. *)

(** [str.isspace] outside ASCII (the interpreter's character database). *)
Variable unicode_space : N -> bool.

(** The exceptions that can leave the loop. *)
Inductive exn : Type :=
| EncodeError      (* UnicodeEncodeError, from the sanitizer *)
| AttributeError   (* [obj.get] on a document that is not a dict *)
| ValueError       (* from [json.loads], and not a [JSONDecodeError] *)
| RecursionError.  (* the interpreter's stack is exhausted *)

(** What [json.loads] does with a line.  It returns a value, or raises
    [json.JSONDecodeError], which the loop catches, or raises something
    else, which nothing catches: [ValueError] for an integer literal with
    more digits than the interpreter converts, [RecursionError] for nesting
    deeper than its stack. *)
Inductive loaded : Type :=
| Parsed (obj : json)
| JSONDecodeError
| LoadsRaises (e : exn).

Variable json_loads : pystr -> loaded.

(** Whether the interpreter's stack lasts for [sanitizer.sanitize(obj)],
    which calls itself once for every level of nesting of [obj] and has no
    guard, and for [json.dumps] of its result.  Where the stack does not
    last the interpreter raises [RecursionError]; how deep that is depends
    on the interpreter, not on the program. *)
Variable stack_admits : json -> bool.

(** Whitespace, as [str.strip] and [str.rstrip] see it: in ASCII, the
    characters 9 to 13 and 28 to 32. *)
Definition ascii_space (c : N) : bool := in_range 9 13 c || in_range 28 32 c.
Definition is_space (c : N) : bool :=
  if is_ascii c then ascii_space c else unicode_space c.

Fixpoint lstrip (s : pystr) : pystr :=
  match s with
  | [] => []
  | c :: s' => if is_space c then lstrip s' else s
  end.

(** [s.rstrip()] and [s.strip()] *)
Definition rstrip (s : pystr) : pystr := rev (lstrip (rev s)).
Definition strip (s : pystr) : pystr := rstrip (lstrip s).

Inductive outcome (A : Type) : Type :=
| Returns (a : A)
| Raises (e : exn).
Arguments Returns {A} a.
Arguments Raises {A} e.

(** One [f_out.write(json.dumps(doc, ...) + "\n")]; [compact] tells whether
    [separators=(",", ":")] was passed. *)
Record written : Type := Line { doc : json; compact : bool }.

(** The variables of [main] that the loop updates. *)
Record Transcoder : Type := mkTranscoder {
  sanitizer : Sanitizer;
  line_count_total : N;
  type_counts : gmap (list N) N }.

(** [counts[k] += 1] on a [Counter] *)
Definition bump (k : pystr) (counts : gmap (list N) N) : gmap (list N) N :=
  <[k := default 0 (counts !! k) + 1]> counts.

(** [sum(counts.values())] *)
Definition total_count (counts : gmap (list N) N) : N :=
  map_fold (fun _ n acc => n + acc) 0 counts.

(** [{"type": "malformed_line", "raw": raw}] *)
Definition malformed_record (raw : pystr) : json :=
  JDict [ (lit "type", JStr (lit "malformed_line")); (lit "raw", JStr raw) ].

(** The body of [for line in f_in]. *)
Definition process_line (line : pystr) (t : Transcoder) (f_out : list written)
  : outcome (Transcoder * list written) :=
  match strip line with
  | [] => Returns (t, f_out)
  | _ :: _ =>
      let n := line_count_total t + 1 in
      match json_loads line with
      | JSONDecodeError =>
          match sanitize_text (lit "raw") (rstrip line) (sanitizer t) with
          | Ok (raw, s) =>
              Returns (mkTranscoder s n
                         (bump (lit "malformed_line") (type_counts t)),
                       f_out ++ [Line (malformed_record raw) false])
          | UnicodeEncodeError => Raises EncodeError
          end
      | LoadsRaises e => Raises e
      | Parsed (JDict items) =>
          let counts :=
            match dict_get (lit "type") items with
            | Some (JStr msg_type) => bump msg_type (type_counts t)
            | _ => bump (lit "<missing>") (type_counts t)
            end in
          if stack_admits (JDict items) then
            match sanitize (JDict items) [] (sanitizer t) with
            | Ok (sanitized, s) =>
                Returns (mkTranscoder s n counts,
                         f_out ++ [Line sanitized true])
            | UnicodeEncodeError => Raises EncodeError
            end
          else Raises RecursionError
      | Parsed _ => Raises AttributeError
      end
  end.

Fixpoint process_lines (lines : list pystr) (t : Transcoder)
  (f_out : list written) : outcome (Transcoder * list written) :=
  match lines with
  | [] => Returns (t, f_out)
  | line :: rest =>
      match process_line line t f_out with
      | Returns (t', f_out') => process_lines rest t' f_out'
      | Raises e => Raises e
      end
  end.

(** [for src in session_files]: each file gets a fresh output. *)
Fixpoint process_files (files : list (list pystr)) (t : Transcoder)
  : outcome (Transcoder * list (list written)) :=
  match files with
  | [] => Returns (t, [])
  | lines :: rest =>
      match process_lines lines t [] with
      | Returns (t', f_out) =>
          match process_files rest t' with
          | Returns (t'', outs) => Returns (t'', f_out :: outs)
          | Raises e => Raises e
          end
      | Raises e => Raises e
      end
  end.

(** The loop as [main] starts it: a fresh sanitizer, zero lines, an empty
    counter. *)
Definition transcode (files : list (list pystr))
  : outcome (Transcoder * list (list written)) :=
  process_files files (mkTranscoder init 0 ∅).

(** A line the loop skips. *)
Definition blank (line : pystr) : bool := forallb is_space line.

(** The counter a line that is not blank is tallied under.  (A line that
    parses to something else than a dict, or on which [json.loads] raises
    something the loop does not catch, ends the run before it is
    tallied.) *)
Definition bucket (line : pystr) : pystr :=
  match json_loads line with
  | JSONDecodeError => lit "malformed_line"
  | Parsed (JDict items) =>
      match dict_get (lit "type") items with
      | Some (JStr msg_type) => msg_type
      | _ => lit "<missing>"
      end
  | _ => lit "<missing>"
  end.

(** What the loop writes for one line that is not blank, between two states
    of the run. *)
Definition line_written (s0 s1 : Sanitizer) (line : pystr) (w : written)
  : Prop :=
  exists sa sb,
    reachable_from s0 sa /\ reachable_from sb s1 /\
    match json_loads line with
    | JSONDecodeError =>
        exists raw,
          sanitize_text (lit "raw") (rstrip line) sa = Ok (raw, sb) /\
          w = Line (malformed_record raw) false
    | Parsed obj =>
        exists items y,
          obj = JDict items /\ sanitize obj [] sa = Ok (y, sb) /\
          w = Line y true
    | LoadsRaises _ => False
    end.

(** A line the loop gets through: blank, or rejected by [json.loads] with
    [JSONDecodeError], or a JSON object whose string leaves all have a UTF-8
    encoding and whose nesting the stack admits. *)
Definition passable (line : pystr) : Prop :=
  blank line = true \/
  match json_loads line with
  | JSONDecodeError => utf8_encode line <> None
  | Parsed obj =>
      (exists items, obj = JDict items) /\ encodable obj /\
      stack_admits obj = true
  | LoadsRaises _ => False
  end.

(** The lines of a file that are not blank, in order. *)
Definition nonblank (lines : list pystr) : list pystr :=
  List.filter (fun line => negb (blank line)) lines.

(** How many of the lines that are not blank fall in bucket [b]. *)
Definition tally (b : pystr) (lines : list pystr) : nat :=
  length (List.filter (fun line => pystr_eqb (bucket line) b)
                      (nonblank lines)).

(** *** Sample session files

    Two small files, with the documents [json.loads] returns for their
    lines, to run the loop on. *)

Definition ascii_only_space (c : N) : bool := false.

Definition dq : pystr := [34].
Definition nl : pystr := [10].

(** [{"type":"turn","cwd":"/Users/alice/proj","count":3}] *)
Definition line_turn : pystr :=
  lit "{" ++ dq ++ lit "type" ++ dq ++ lit ":" ++ dq ++ lit "turn" ++ dq
  ++ lit "," ++ dq ++ lit "cwd" ++ dq ++ lit ":" ++ dq
  ++ lit "/Users/alice/proj" ++ dq ++ lit "," ++ dq ++ lit "count" ++ dq
  ++ lit ":3}" ++ nl.

(** [{"payload":{"cwd":"/Users/alice/proj"}}] *)
Definition line_payload : pystr :=
  lit "{" ++ dq ++ lit "payload" ++ dq ++ lit ":{" ++ dq ++ lit "cwd" ++ dq
  ++ lit ":" ++ dq ++ lit "/Users/alice/proj" ++ dq ++ lit "}}" ++ nl.

Definition line_broken : pystr := lit "{oops" ++ nl.
Definition line_list : pystr := lit "[1]" ++ nl.
Definition line_blank : pystr := lit "   " ++ nl.

Definition doc_turn : json :=
  JDict [ (lit "type", JStr (lit "turn"));
          (lit "cwd", JStr (lit "/Users/alice/proj"));
          (lit "count", JInt 3) ].

Definition doc_payload : json :=
  JDict [ (lit "payload",
           JDict [ (lit "cwd", JStr (lit "/Users/alice/proj")) ]) ].

(** What [json.loads] does on the sample lines. *)
Definition sample_loads (s : pystr) : loaded :=
  if pystr_eqb s line_turn then Parsed doc_turn
  else if pystr_eqb s line_payload then Parsed doc_payload
  else if pystr_eqb s line_list then Parsed (JList [JInt 1])
  else JSONDecodeError.

(** How deep a value nests. *)
Fixpoint depth (x : json) : nat :=
  match x with
  | JList elems =>
      S (List.fold_right (fun v d => Nat.max (depth v) d) 0%nat elems)
  | JDict items =>
      S (List.fold_right (fun kv d => Nat.max (depth (snd kv)) d) 0%nat
                         items)
  | _ => 0%nat
  end.

(** A stack that lasts for a hundred levels of nesting. *)
Definition sample_stack (x : json) : bool := (depth x <=? 100)%nat.

Definition sample_files : list (list pystr) :=
  [ [ line_turn; line_blank; line_broken ]; [ line_payload ] ].

(** What the run writes for the sample files. *)
Definition sample_outputs : list (list written) :=
  [ [ Line (JDict [ (lit "type", JStr (lit "turn"));
                    (lit "cwd", JStr (lit "/redacted/path/2711bd02af"));
                    (lit "count", JInt 3) ]) true;
      Line (malformed_record (lit "[REDACTED_RAW len=5 sha=935aaf3a]"))
           false ];
    [ Line (JDict [ (lit "payload",
                     JDict [ (lit "cwd",
                              JStr (lit "/redacted/path/2711bd02af")) ]) ])
           true ] ].

(** The variables of [main] after the sample files. *)
Definition sample_state : Transcoder :=
  mkTranscoder after_user_message 3
    (<[lit "<missing>" := 1]>
       (<[lit "malformed_line" := 1]> {[ lit "turn" := 1 ]})).

(** More sample values. *)
Definition user_message_output : json :=
  JDict [ (lit "type", JStr (lit "user_message"));
          (lit "cwd", JStr (lit "/redacted/path/2711bd02af"));
          (lit "content",
           JStr (lit "[REDACTED_CONTENT len=24 sha=ea740f7e]")) ].

Definition second_record_output : json :=
  JDict [ (lit "type", JStr (lit "tool_call"));
          (lit "payload",
           JDict [ (lit "cwd", JStr (lit "/redacted/path/2711bd02af")) ]) ].

Definition href_record : json :=
  JDict [ (lit "href", JStr (lit "see the wiki page of alice")) ].

Definition session_record : json :=
  JDict [ (lit "session_id",
           JStr (lit "0199a2b4-7c1e-7f30-9d55-0123456789ab")) ].

Definition usage_record : json :=
  JDict [ (lit "input_tokens", JInt 1200);
          (lit "flags", JList [ JBool true; JNull ]) ].

(** ** The monad *)

Lemma bind_Ok {A B} (m : M A) (k : A -> M B) st b st' :
  bind m k st = Ok (b, st') <->
  exists a s, m st = Ok (a, s) /\ k a s = Ok (b, st').
Proof.
  unfold bind. split.
  - destruct (m st) as [[a s]|]; [eauto | discriminate].
  - intros (a & s & -> & Hk). exact Hk.
Qed.

(** ** The hash tokenizer *)

Lemma nibble_lt x : N.land x 0xF < 16.
Proof.
  change 0xF with (N.ones 4). rewrite N.land_ones.
  apply N.mod_lt. discriminate.
Qed.

Lemma hex_digit_is_hex n : n < 16 -> is_hex (SHA256.hex_digit n) = true.
Proof.
  intros Hn. unfold SHA256.hex_digit, is_hex, in_range.
  destruct (N.ltb_spec n 10).
  - apply orb_true_iff. left. apply andb_true_iff.
    split; apply N.leb_le; lia.
  - apply orb_true_iff. right. apply andb_true_iff.
    split; apply N.leb_le; lia.
Qed.

Lemma hex32_is_hex x : Forall (fun c => is_hex c = true) (SHA256.hex32 x).
Proof.
  unfold SHA256.hex32.
  repeat constructor; apply hex_digit_is_hex, nibble_lt.
Qed.

Lemma hexdigest_is_hex bs :
  Forall (fun c => is_hex c = true) (SHA256.hexdigest bs).
Proof.
  unfold SHA256.hexdigest. rewrite !Forall_app.
  repeat split; apply hex32_is_hex.
Qed.

Lemma hexdigest_length bs : length (SHA256.hexdigest bs) = 64%nat.
Proof. reflexivity. Qed.

Lemma _hash_Ok s n h :
  _hash s n = Ok h ->
  length h = Nat.min n 64 /\ Forall (fun c => is_hex c = true) h.
Proof.
  unfold _hash. destruct (utf8_encode s) as [bs|]; [|discriminate].
  intros [= <-]. split.
  - rewrite length_firstn. rewrite hexdigest_length. reflexivity.
  - apply Forall_take, hexdigest_is_hex.
Qed.

Lemma _hash_encodable s n :
  utf8_encode s <> None <-> exists h, _hash s n = Ok h.
Proof.
  unfold _hash. destruct (utf8_encode s) as [bs|]; split.
  - eauto.
  - discriminate.
  - congruence.
  - intros [h Hh]. discriminate.
Qed.

(** ** The state predicates *)

Lemma extends_refl st : extends st st.
Proof. unfold extends. auto. Qed.

Lemma extends_trans st1 st2 st3 :
  extends st1 st2 -> extends st2 st3 -> extends st1 st3.
Proof.
  intros (Hp & Hu & Hs) (Hp' & Hu' & Hs'). unfold extends.
  split; [|split].
  - etransitivity; eassumption.
  - etransitivity; eassumption.
  - congruence.
Qed.

Lemma consistent_init : consistent init.
Proof.
  split; intros v t H; simpl in H; rewrite lookup_empty in H; discriminate.
Qed.

(** ** Composition rules for [sound], [stable] and [total] *)

Lemma sound_ret {A} (a : A) : sound (ret a).
Proof.
  intros st a' st' [= <- <-]. split; [apply extends_refl | auto].
Qed.

Lemma sound_bind {A B} (m : M A) (k : A -> M B) :
  sound m -> (forall a, sound (k a)) -> sound (bind m k).
Proof.
  intros Hm Hk st b st' (a & s & H1 & H2)%bind_Ok.
  destruct (Hm _ _ _ H1) as [E1 C1].
  destruct (Hk _ _ _ _ H2) as [E2 C2].
  split; [eapply extends_trans; eassumption | auto].
Qed.

Lemma stable_ret {A} (a : A) : stable (ret a).
Proof. intros st1 st2 _ _. reflexivity. Qed.

Lemma stable_bind {A B} (m : M A) (k : A -> M B) :
  sound m -> stable m -> (forall a, stable (k a)) -> stable (bind m k).
Proof.
  intros Hs Hm Hk st1 st2 C1 C2.
  specialize (Hm st1 st2 C1 C2). unfold bind.
  destruct (m st1) as [[a1 s1]|] eqn:E1;
    destruct (m st2) as [[a2 s2]|] eqn:E2; simpl in Hm;
    try discriminate; [|reflexivity].
  injection Hm as ->.
  apply Hk.
  - apply (Hs _ _ _ E1), C1.
  - apply (Hs _ _ _ E2), C2.
Qed.

Lemma total_ret {A} (a : A) : total (ret a).
Proof. intros st. exists a, st. reflexivity. Qed.

Lemma total_bind {A B} (m : M A) (k : A -> M B) :
  total m -> (forall a, total (k a)) -> total (bind m k).
Proof.
  intros Hm Hk st. destruct (Hm st) as (a & s & E).
  destruct (Hk a s) as (b & s' & E').
  exists b, s'. apply bind_Ok. eauto.
Qed.

(** ** The pseudonymizer *)

Lemma sanitize_path_Ok v st t st' :
  sanitize_path v st = Ok (t, st') ->
  path_map st' !! v = Some t /\ url_map st' = url_map st /\
  (path_map st !! v = None ->
     exists h, _hash v 10 = Ok h /\ t = lit "/redacted/path/" ++ h /\
               path_map st' = <[v := t]> (path_map st)) /\
  (forall t0, path_map st !! v = Some t0 -> t = t0 /\ st' = st).
Proof.
  unfold sanitize_path, bind, get, ret, lift, set_path, put. simpl.
  destruct (path_map st !! v) as [t0|] eqn:E.
  - intros [= <- <-]. repeat split; try congruence; intros; discriminate.
  - destruct (_hash v 10) as [h|] eqn:Hh; simpl; [|discriminate].
    intros [= <- <-]. simpl. repeat split; try discriminate.
    + apply lookup_insert_eq.
    + intros _. exists h. auto.
Qed.

Lemma sanitize_path_sound v : sound (sanitize_path v).
Proof.
  intros st t st' H.
  destruct (sanitize_path_Ok _ _ _ _ H) as (Hl & Hu & Hnew & Hold).
  destruct (path_map st !! v) as [t0|] eqn:E.
  - destruct (Hold t0 eq_refl) as [_ ->].
    split; [apply extends_refl | auto].
  - destruct (Hnew eq_refl) as (h & Hh & -> & Hp). split.
    + unfold sanitize_path, bind, get, lift, set_path, put, ret in H.
      simpl in H. rewrite E, Hh in H. simpl in H. injection H as <-.
      unfold extends. simpl. split; [|auto].
      apply insert_subseteq, E.
    + intros [Cp Cu]. split.
      * intros w tw. rewrite Hp. rewrite lookup_insert_Some.
        intros [[<- <-] | [_ Hw]]; [eauto | apply (Cp _ _ Hw)].
      * intros w tw. rewrite Hu. apply Cu.
Qed.

Lemma sanitize_path_value v st :
  path_ok st ->
  value_of (sanitize_path v st) =
  result_map (app (lit "/redacted/path/")) (_hash v 10).
Proof.
  intros Cp.
  unfold sanitize_path, bind, get, ret, lift, set_path, put. simpl.
  destruct (path_map st !! v) as [t0|] eqn:E.
  - destruct (Cp _ _ E) as (h & -> & ->). reflexivity.
  - destruct (_hash v 10); reflexivity.
Qed.

Lemma sanitize_path_stable v : stable (sanitize_path v).
Proof.
  intros st1 st2 [C1 _] [C2 _].
  rewrite !sanitize_path_value by assumption. reflexivity.
Qed.

Lemma sanitize_path_total v : utf8_encode v <> None -> total (sanitize_path v).
Proof.
  intros Hv st.
  apply (_hash_encodable v 10) in Hv. destruct Hv as [h Hh].
  unfold sanitize_path, bind, get, ret, lift, set_path, put. simpl.
  destruct (path_map st !! v); [eauto|].
  rewrite Hh. simpl. eauto.
Qed.

Lemma sanitize_url_Ok v st t st' :
  sanitize_url v st = Ok (t, st') ->
  path_map st' = path_map st /\
  (url_marker v = false -> t = v /\ st' = st) /\
  (url_marker v = true ->
     url_map st' !! v = Some t /\
     (url_map st !! v = None ->
        exists h, _hash v 10 = Ok h /\ t = lit "redacted://url/" ++ h /\
                  url_map st' = <[v := t]> (url_map st)) /\
     (forall t0, url_map st !! v = Some t0 -> t = t0 /\ st' = st)).
Proof.
  unfold sanitize_url.
  destruct (url_marker v).
  - unfold bind, get, ret, lift, set_url, put. simpl.
    destruct (url_map st !! v) as [t0|] eqn:E.
    + intros [= <- <-]. repeat split; try congruence; intros; discriminate.
    + destruct (_hash v 10) as [h|] eqn:Hh; simpl; [|discriminate].
      intros [= <- <-]. simpl. repeat split; try discriminate.
      * apply lookup_insert_eq.
      * intros _. exists h. auto.
  - intros [= <- <-]. repeat split; discriminate.
Qed.

Lemma sanitize_url_sound v : sound (sanitize_url v).
Proof.
  intros st t st' H.
  destruct (sanitize_url_Ok _ _ _ _ H) as (Hp & Hno & Hyes).
  destruct (url_marker v) eqn:Em.
  - destruct (Hyes eq_refl) as (Hl & Hnew & Hold).
    destruct (url_map st !! v) as [t0|] eqn:E.
    + destruct (Hold t0 eq_refl) as [_ ->].
      split; [apply extends_refl | auto].
    + destruct (Hnew eq_refl) as (h & Hh & -> & Hu). split.
      * unfold sanitize_url in H. rewrite Em in H.
        unfold bind, get, lift, set_url, put, ret in H.
        simpl in H. rewrite E, Hh in H. simpl in H. injection H as <-.
        unfold extends. simpl. split; [auto|split; [|auto]].
        apply insert_subseteq, E.
      * intros [Cp Cu]. split.
        -- intros w tw. rewrite Hp. apply Cp.
        -- intros w tw. rewrite Hu. rewrite lookup_insert_Some.
           intros [[<- <-] | [_ Hw]]; [eauto | apply (Cu _ _ Hw)].
  - destruct (Hno eq_refl) as [_ ->].
    split; [apply extends_refl | auto].
Qed.

Lemma sanitize_url_value v st :
  url_ok st ->
  value_of (sanitize_url v st) =
  if url_marker v
  then result_map (app (lit "redacted://url/")) (_hash v 10)
  else Ok v.
Proof.
  intros Cu. unfold sanitize_url.
  destruct (url_marker v); [|reflexivity].
  unfold bind, get, ret, lift, set_url, put. simpl.
  destruct (url_map st !! v) as [t0|] eqn:E.
  - destruct (Cu _ _ E) as (h & -> & ->). reflexivity.
  - destruct (_hash v 10); reflexivity.
Qed.

Lemma sanitize_url_stable v : stable (sanitize_url v).
Proof.
  intros st1 st2 [_ C1] [_ C2].
  rewrite !sanitize_url_value by assumption. reflexivity.
Qed.

Lemma sanitize_url_total v : utf8_encode v <> None -> total (sanitize_url v).
Proof.
  intros Hv st.
  apply (_hash_encodable v 10) in Hv. destruct Hv as [h Hh].
  unfold sanitize_url. destruct (url_marker v); [|eauto].
  unfold bind, get, ret, lift, set_url, put. simpl.
  destruct (url_map st !! v); [eauto|].
  rewrite Hh. simpl. eauto.
Qed.

(** ** Text redaction and the classifier *)

Lemma sanitize_text_eq k v st :
  sanitize_text k v st =
  result_map
    (fun dg => (placeholder (or_else k (lit "text")) (length v) dg, st))
    (_hash v 8).
Proof.
  unfold sanitize_text, bind, lift, ret.
  destruct (_hash v 8); reflexivity.
Qed.

Lemma sanitize_text_sound k v : sound (sanitize_text k v).
Proof.
  intros st t st'. rewrite sanitize_text_eq.
  destruct (_hash v 8); simpl; [|discriminate].
  intros [= <- <-]. split; [apply extends_refl | auto].
Qed.

Lemma sanitize_text_stable k v : stable (sanitize_text k v).
Proof.
  intros st1 st2 _ _. rewrite !sanitize_text_eq.
  destruct (_hash v 8); reflexivity.
Qed.

Lemma sanitize_text_total k v :
  utf8_encode v <> None -> total (sanitize_text k v).
Proof.
  intros Hv st. apply (_hash_encodable v 8) in Hv. destruct Hv as [h Hh].
  rewrite sanitize_text_eq, Hh. simpl. eauto.
Qed.

Ltac classifier_cases :=
  unfold sanitize_generic_string;
  repeat match goal with
         | |- context [if ?b then _ else _] => destruct b
         end.

Lemma sanitize_generic_string_sound k v :
  sound (sanitize_generic_string k v).
Proof.
  classifier_cases;
    auto using sound_ret, sanitize_path_sound, sanitize_url_sound,
               sanitize_text_sound.
Qed.

Lemma sanitize_generic_string_stable k v :
  stable (sanitize_generic_string k v).
Proof.
  classifier_cases;
    auto using stable_ret, sanitize_path_stable, sanitize_url_stable,
               sanitize_text_stable.
Qed.

Lemma sanitize_generic_string_total k v :
  utf8_encode v <> None -> total (sanitize_generic_string k v).
Proof.
  intros Hv. classifier_cases;
    auto using total_ret, sanitize_path_total, sanitize_url_total,
               sanitize_text_total.
Qed.

(** ** The two loops *)

Lemma for_each_cons {A B} (f : A -> M B) a l :
  for_each f (a :: l) =
  bind (f a) (fun v' => bind (for_each f l) (fun r => ret (v' :: r))).
Proof. reflexivity. Qed.

Lemma for_items_cons f k v rest out :
  for_items f ((k, v) :: rest) out =
  bind (f k v) (fun v' => for_items f rest (dict_set k v' out)).
Proof. reflexivity. Qed.

Lemma for_each_sound {A B} (f : A -> M B) l :
  Forall (fun a => sound (f a)) l -> sound (for_each f l).
Proof.
  induction 1 as [|a l Ha _ IH]; [apply sound_ret|].
  rewrite for_each_cons. apply sound_bind; [assumption|].
  intros v'. apply sound_bind; [assumption|]. intros r. apply sound_ret.
Qed.

Lemma for_items_sound f its out :
  Forall (fun kv => sound (f (fst kv) (snd kv))) its ->
  sound (for_items f its out).
Proof.
  intros H. revert out.
  induction H as [|[k v] rest Hkv _ IH]; intros out; [apply sound_ret|].
  rewrite for_items_cons. apply sound_bind; [assumption|].
  intros v'. apply IH.
Qed.

Lemma for_each_stable {A B} (f : A -> M B) l :
  Forall (fun a => sound (f a) /\ stable (f a)) l -> stable (for_each f l).
Proof.
  induction 1 as [|a l [Hs Ha] Hl IH]; [apply stable_ret|].
  rewrite for_each_cons. apply stable_bind; [assumption..|].
  intros v'. apply stable_bind; [|assumption|].
  - apply for_each_sound. eapply Forall_impl; [exact Hl|].
  intros ? [? _]. assumption.
  - intros r. apply stable_ret.
Qed.

Lemma for_items_stable f its out :
  Forall (fun kv => sound (f (fst kv) (snd kv)) /\
                    stable (f (fst kv) (snd kv))) its ->
  stable (for_items f its out).
Proof.
  intros H. revert out.
  induction H as [|[k v] rest [Hs Hkv] _ IH]; intros out;
    [apply stable_ret|].
  rewrite for_items_cons. apply stable_bind; [assumption..|].
  intros v'. apply IH.
Qed.

Lemma for_each_total {A B} (f : A -> M B) l :
  Forall (fun a => total (f a)) l -> total (for_each f l).
Proof.
  induction 1 as [|a l Ha _ IH]; [apply total_ret|].
  rewrite for_each_cons. apply total_bind; [assumption|].
  intros v'. apply total_bind; [assumption|]. intros r. apply total_ret.
Qed.

Lemma for_items_total f its out :
  Forall (fun kv => total (f (fst kv) (snd kv))) its ->
  total (for_items f its out).
Proof.
  intros H. revert out.
  induction H as [|[k v] rest Hkv _ IH]; intros out; [apply total_ret|].
  rewrite for_items_cons. apply total_bind; [assumption|].
  intros v'. apply IH.
Qed.

(** ** Induction on JSON values *)

Lemma json_ind (P : json -> Prop) :
  P JNull ->
  (forall b, P (JBool b)) ->
  (forall n, P (JInt n)) ->
  (forall bits, P (JFloat bits)) ->
  (forall s, P (JStr s)) ->
  (forall elems, Forall P elems -> P (JList elems)) ->
  (forall items, Forall (fun kv => P (snd kv)) items -> P (JDict items)) ->
  forall x, P x.
Proof.
  intros Hnull Hbool Hint Hfloat Hstr Hlist Hdict.
  fix IH 1. intros [ | b | n | bits | s | elems | items ].
  - exact Hnull.
  - apply Hbool.
  - apply Hint.
  - apply Hfloat.
  - apply Hstr.
  - apply Hlist.
    induction elems as [|v elems IHl]; constructor; [apply IH | exact IHl].
  - apply Hdict.
    induction items as [|[k v] items IHl]; constructor;
      [apply IH | exact IHl].
Qed.

Lemma wf_json_list elems :
  wf_json (JList elems) <-> Forall wf_json elems.
Proof.
  simpl. induction elems as [|v l IH]; simpl.
  - split; [constructor | trivial].
  - rewrite Forall_cons, IH. reflexivity.
Qed.

Lemma wf_json_dict items :
  wf_json (JDict items) <->
  NoDup (List.map fst items) /\ Forall (fun kv => wf_json (snd kv)) items.
Proof.
  simpl. apply and_iff_compat_l.
  induction items as [|kv l IH]; simpl.
  - split; [constructor | trivial].
  - rewrite Forall_cons, IH. reflexivity.
Qed.

Lemma encodable_list elems :
  encodable (JList elems) <-> Forall encodable elems.
Proof.
  simpl. induction elems as [|v l IH]; simpl.
  - split; [constructor | trivial].
  - rewrite Forall_cons, IH. reflexivity.
Qed.

Lemma encodable_dict items :
  encodable (JDict items) <-> Forall (fun kv => encodable (snd kv)) items.
Proof.
  simpl. induction items as [|kv l IH]; simpl.
  - split; [constructor | trivial].
  - rewrite Forall_cons, IH. reflexivity.
Qed.

(** ** The record walk *)

Lemma sanitize_sound x : forall pk, sound (sanitize x pk).
Proof.
  induction x as [ | | | | s | elems IH | items IH ] using json_ind;
    intros pk; simpl; try apply sound_ret.
  - apply sound_bind; [apply sanitize_generic_string_sound|].
    intros s'. apply sound_ret.
  - apply sound_bind; [|intros out; apply sound_ret].
    apply for_each_sound. eapply Forall_impl; [exact IH|]. auto.
  - apply sound_bind; [|intros out; apply sound_ret].
    apply for_items_sound. eapply Forall_impl; [exact IH|]. auto.
Qed.

Lemma sanitize_stable x : forall pk, stable (sanitize x pk).
Proof.
  induction x as [ | | | | s | elems IH | items IH ] using json_ind;
    intros pk; simpl; try apply stable_ret.
  - apply stable_bind;
      [apply sanitize_generic_string_sound
      |apply sanitize_generic_string_stable|].
    intros s'. apply stable_ret.
  - apply stable_bind; [| |intros out; apply stable_ret].
    + apply for_each_sound. rewrite Forall_forall.
      intros; apply sanitize_sound.
    + apply for_each_stable. eapply Forall_impl; [exact IH|].
      intros v Hv. split; [apply sanitize_sound | apply Hv].
  - apply stable_bind; [| |intros out; apply stable_ret].
    + apply for_items_sound. rewrite Forall_forall.
      intros; apply sanitize_sound.
    + apply for_items_stable. eapply Forall_impl; [exact IH|].
      intros v Hv. split; [apply sanitize_sound | apply Hv].
Qed.

(** With every string leaf encodable the walk does not raise
    [UnicodeEncodeError]: while the stack lasts, it returns. *)
Lemma sanitize_total x : encodable x -> forall pk, total (sanitize x pk).
Proof.
  induction x as [ | | | | s | elems IH | items IH ] using json_ind;
    intros He pk; simpl; try apply total_ret.
  - apply total_bind; [apply sanitize_generic_string_total, He|].
    intros s'. apply total_ret.
  - apply total_bind; [|intros out; apply total_ret].
    apply for_each_total. apply encodable_list in He.
    rewrite Forall_forall in IH, He |- *. intros v Hv.
    apply IH; auto.
  - apply total_bind; [|intros out; apply total_ret].
    apply for_items_total. apply encodable_dict in He.
    rewrite Forall_forall in IH, He |- *. intros v Hv.
    apply IH; auto.
Qed.

(** ** Reachable states *)

Lemma state_after_Ok {A} (r : result (A * Sanitizer)) st' :
  result_map snd r = Ok st' -> exists a, r = Ok (a, st').
Proof.
  destruct r as [[a s]|]; simpl; [|discriminate].
  intros [= <-]. eauto.
Qed.

Lemma exec_sound c st st' :
  exec c st = Ok st' -> extends st st' /\ (consistent st -> consistent st').
Proof.
  destruct c; simpl; intros [a Ha]%state_after_Ok; revert Ha.
  - apply sanitize_path_sound.
  - apply sanitize_url_sound.
  - apply sanitize_text_sound.
  - apply sanitize_generic_string_sound.
  - apply sanitize_sound.
Qed.

Lemma reachable_from_extends st st' :
  reachable_from st st' -> extends st st'.
Proof.
  induction 1 as [|c st1 st2 _ IH Hc]; [apply extends_refl|].
  eapply extends_trans; [exact IH|]. apply (exec_sound _ _ _ Hc).
Qed.

Lemma reachable_from_consistent st st' :
  reachable_from st st' -> consistent st -> consistent st'.
Proof.
  induction 1 as [|c st1 st2 _ IH Hc]; [auto|].
  intros C. apply (exec_sound _ _ _ Hc), IH, C.
Qed.

Lemma reachable_consistent st : reachable st -> consistent st.
Proof.
  intros H. apply (reachable_from_consistent _ _ H), consistent_init.
Qed.

Lemma reachable_from_trans st1 st2 st3 :
  reachable_from st1 st2 -> reachable_from st2 st3 ->
  reachable_from st1 st3.
Proof.
  intros H12 H23. induction H23 as [|c sa sb _ IH Hc]; [exact H12|].
  eapply reach_call; eassumption.
Qed.

(** ** Loops as threaded runs *)

Lemma for_each_run {A B} (f : A -> M B) l st l' st' :
  for_each f l st = Ok (l', st') <-> run_list f l st l' st'.
Proof.
  split.
  - revert st l'. induction l as [|a l IH]; intros st l'.
    + intros [= <- <-]. constructor.
    + rewrite for_each_cons.
      intros (b & s & Hb & (r & s2 & Hr & [= <- <-])%bind_Ok)%bind_Ok.
      econstructor; eauto.
  - induction 1 as [|a l st b st1 l' st' Hb _ IH]; [reflexivity|].
    rewrite for_each_cons. apply bind_Ok. exists b, st1. split; [exact Hb|].
    apply bind_Ok. exists l', st'. split; [exact IH | reflexivity].
Qed.

Lemma for_items_run f its out st out' st' :
  for_items f its out st = Ok (out', st') <->
  exists vs, run_list (fun kv => f (fst kv) (snd kv)) its st vs st' /\
             out' = set_all its vs out.
Proof.
  split.
  - revert out st. induction its as [|[k v] rest IH]; intros out st.
    + intros [= <- <-]. exists []. split; [constructor | reflexivity].
    + rewrite for_items_cons. intros (v' & s & Hv & Hrest)%bind_Ok.
      destruct (IH _ _ Hrest) as (vs & Hrun & ->).
      exists (v' :: vs). split; [econstructor; eauto | reflexivity].
  - intros (vs & Hrun & ->). revert out.
    induction Hrun as [|[k v] l st b st1 l' st' Hb _ IH]; intros out;
      [reflexivity|].
    rewrite for_items_cons. apply bind_Ok. exists b, st1.
    split; [exact Hb | apply IH].
Qed.

Lemma dict_set_fresh k v out :
  k ∉ List.map fst out -> dict_set k v out = out ++ [(k, v)].
Proof.
  induction out as [|[k0 v0] out IH]; simpl; [reflexivity|].
  rewrite not_elem_of_cons. intros [Hne Hout].
  unfold pystr_eqb. rewrite bool_decide_eq_false_2 by congruence.
  rewrite IH by assumption. reflexivity.
Qed.

Lemma set_all_fresh its : forall vs out,
  NoDup (List.map fst its) ->
  (forall k, k ∈ List.map fst its -> k ∉ List.map fst out) ->
  set_all its vs out = out ++ combine (List.map fst its) vs.
Proof.
  unfold set_all.
  induction its as [|[k x] rest IH]; intros vs out Hnd Hfresh; simpl.
  - rewrite app_nil_r. reflexivity.
  - destruct vs as [|v vs]; simpl; [rewrite app_nil_r; reflexivity|].
    simpl in Hnd. apply NoDup_cons in Hnd as [Hk Hnd].
    rewrite dict_set_fresh by (apply Hfresh; simpl; left).
    rewrite IH; [rewrite <- app_assoc; reflexivity | exact Hnd |].
    intros k' Hk'. rewrite map_app. simpl.
    rewrite elem_of_app, list_elem_of_singleton.
    intros [Hin | ->]; [|contradiction].
    apply (Hfresh k'); [simpl; right; exact Hk' | exact Hin].
Qed.

Lemma set_all_nil its vs :
  NoDup (List.map fst its) ->
  set_all its vs [] = combine (List.map fst its) vs.
Proof.
  intros Hnd. rewrite set_all_fresh; [reflexivity | exact Hnd |].
  intros k _. simpl. apply not_elem_of_nil.
Qed.

Lemma sanitize_list_Ok elems pk st y st' :
  sanitize (JList elems) pk st = Ok (y, st') <->
  exists vs, run_list (fun v => sanitize v pk) elems st vs st' /\
             y = JList vs.
Proof.
  simpl. rewrite bind_Ok. split.
  - intros (vs & s & Hrun%for_each_run & [= <- <-]). eauto.
  - intros (vs & Hrun%for_each_run & ->). exists vs, st'. auto.
Qed.

Lemma sanitize_dict_Ok items pk st y st' :
  NoDup (List.map fst items) ->
  sanitize (JDict items) pk st = Ok (y, st') <->
  exists vs,
    run_list (fun kv => sanitize (snd kv) (fst kv)) items st vs st' /\
    y = JDict (combine (List.map fst items) vs).
Proof.
  intros Hnd. simpl. rewrite bind_Ok. split.
  - intros (out & s & (vs & Hrun & ->)%for_items_run & [= <- <-]).
    exists vs. rewrite set_all_nil by assumption. auto.
  - intros (vs & Hrun & ->). exists (set_all items vs []), st'.
    split; [|rewrite set_all_nil by assumption; reflexivity].
    apply for_items_run. eauto.
Qed.

(** ** Shape *)

Lemma run_list_shape elems pk st vs st' :
  Forall (fun v => forall pk st y st',
            wf_json v -> sanitize v pk st = Ok (y, st') ->
            shape y = shape v) elems ->
  Forall wf_json elems ->
  run_list (fun v => sanitize v pk) elems st vs st' ->
  List.map shape vs = List.map shape elems.
Proof.
  intros IH Hwf Hrun. induction Hrun as [|a l st b st1 l' st' Hb _ IHr];
    [reflexivity|].
  apply Forall_cons in IH as [IHa IHl].
  apply Forall_cons in Hwf as [Hwa Hwl].
  simpl. rewrite (IHa _ _ _ _ Hwa Hb), IHr by assumption. reflexivity.
Qed.

Lemma run_items_shape items st vs st' :
  Forall (fun kv => forall pk st y st',
            wf_json (snd kv) -> sanitize (snd kv) pk st = Ok (y, st') ->
            shape y = shape (snd kv)) items ->
  Forall (fun kv => wf_json (snd kv)) items ->
  run_list (fun kv => sanitize (snd kv) (fst kv)) items st vs st' ->
  List.map (fun kv => (fst kv, shape (snd kv)))
           (combine (List.map fst items) vs) =
  List.map (fun kv => (fst kv, shape (snd kv))) items.
Proof.
  intros IH Hwf Hrun. induction Hrun as [|a l st b st1 l' st' Hb _ IHr];
    [reflexivity|].
  apply Forall_cons in IH as [IHa IHl].
  apply Forall_cons in Hwf as [Hwa Hwl].
  simpl. rewrite (IHa _ _ _ _ Hwa Hb), IHr by assumption. reflexivity.
Qed.

Lemma sanitize_shape_Ok x : forall pk st y st',
  wf_json x -> sanitize x pk st = Ok (y, st') -> shape y = shape x.
Proof.
  induction x as [ | | | | s | elems IH | items IH ] using json_ind;
    intros pk st y st' Hwf;
    try (simpl; intros [= <- <-]; reflexivity).
  - simpl. intros (s' & s1 & _ & [= <- <-])%bind_Ok. reflexivity.
  - intros (vs & Hrun & ->)%sanitize_list_Ok. simpl. f_equal.
    apply wf_json_list in Hwf.
    eapply run_list_shape; eassumption.
  - apply wf_json_dict in Hwf as [Hnd Hwf].
    intros (vs & Hrun & ->)%sanitize_dict_Ok; [|exact Hnd]. simpl. f_equal.
    eapply run_items_shape; eassumption.
Qed.

(** ** String leaves *)

Lemma sanitize_reach x pk st y st' :
  sanitize x pk st = Ok (y, st') -> reachable_from st st'.
Proof.
  intros H. apply (reach_call st (CallSanitize x pk) st st');
    [constructor|]. simpl. rewrite H. reflexivity.
Qed.

Lemma run_list_reach {A} (g : A -> json) (h : A -> pystr) l st l' st' :
  run_list (fun a => sanitize (g a) (h a)) l st l' st' ->
  reachable_from st st'.
Proof.
  induction 1 as [|a l st b st1 l' st' Hb _ IH]; [constructor|].
  eapply reachable_from_trans; [|exact IH].
  eapply sanitize_reach, Hb.
Qed.

Lemma run_list_nth pk elems st vs st' i xv :
  run_list (fun v => sanitize v pk) elems st vs st' ->
  nth_error elems i = Some xv ->
  exists sa sb yv,
    reachable_from st sa /\ sanitize xv pk sa = Ok (yv, sb) /\
    reachable_from sb st' /\ nth_error vs i = Some yv.
Proof.
  intros Hrun. revert i.
  induction Hrun as [|a l st b st1 l' st' Hb Hrest IH]; intros i.
  - destruct i; discriminate.
  - destruct i as [|i]; simpl.
    + intros [= ->]. exists st, st1, b. repeat split; auto.
      * constructor.
      * apply (run_list_reach (fun v => v) (fun _ => pk) _ _ _ _ Hrest).
    + intros Hi. destruct (IH _ Hi) as (sa & sb & yv & R1 & Hs & R2 & Hn).
      exists sa, sb, yv. repeat split; auto.
      eapply reachable_from_trans; [|exact R1].
      eapply sanitize_reach, Hb.
Qed.

Lemma run_items_get items st vs st' k xv :
  run_list (fun kv => sanitize (snd kv) (fst kv)) items st vs st' ->
  dict_get k items = Some xv ->
  exists sa sb yv,
    reachable_from st sa /\ sanitize xv k sa = Ok (yv, sb) /\
    reachable_from sb st' /\
    dict_get k (combine (List.map fst items) vs) = Some yv.
Proof.
  intros Hrun.
  induction Hrun as [|[k0 x0] l st b st1 l' st' Hb Hrest IH]; simpl.
  - discriminate.
  - unfold pystr_eqb. case_bool_decide as Hk.
    + intros [= ->]. subst k0. exists st, st1, b. repeat split; auto.
      * constructor.
      * apply (run_list_reach snd fst _ _ _ _ Hrest).
    + intros Hg. destruct (IH Hg) as (sa & sb & yv & R1 & Hs & R2 & Hn).
      exists sa, sb, yv. repeat split; auto.
      eapply reachable_from_trans; [|exact R1].
      eapply sanitize_reach, Hb.
Qed.

Lemma dict_get_In k items xv :
  dict_get k items = Some xv -> In (k, xv) items.
Proof.
  induction items as [|[k0 x0] l IH]; simpl; [discriminate|].
  unfold pystr_eqb. case_bool_decide as Hk.
  - intros [= ->]. subst. left. reflexivity.
  - intros H. right. apply IH, H.
Qed.

(** Every string leaf of the input is replaced by what the classifier
    returns for it under the key in force at that place. *)
Lemma sanitize_leaf p : forall x pk st y st' v,
  wf_json x ->
  sanitize x pk st = Ok (y, st') ->
  at_path p x = Some (JStr v) ->
  exists sa sb t,
    reachable_from st sa /\
    sanitize_generic_string (context_key pk p) v sa = Ok (t, sb) /\
    reachable_from sb st' /\
    at_path p y = Some (JStr t).
Proof.
  induction p as [|[k|i] p IH]; intros x pk st y st' v Hwf Hs Hp.
  - simpl in Hp. injection Hp as ->. simpl in Hs.
    apply bind_Ok in Hs as (t & s & Hg & [= <- <-]).
    exists st, s, t. repeat split; auto; constructor.
  - destruct x; try discriminate. simpl in Hp.
    destruct (dict_get k items) as [xv|] eqn:Eg; [|discriminate].
    apply wf_json_dict in Hwf as [Hnd Hwf].
    apply sanitize_dict_Ok in Hs as (vs & Hrun & ->); [|exact Hnd].
    destruct (run_items_get _ _ _ _ _ _ Hrun Eg)
      as (sa & sb & yv & R1 & Hxv & R2 & Hget).
    assert (Hwv : wf_json xv).
    { apply dict_get_In in Eg. rewrite Forall_forall in Hwf.
      apply (Hwf (k, xv)). apply list_elem_of_In, Eg. }
    destruct (IH _ _ _ _ _ _ Hwv Hxv Hp)
      as (sa' & sb' & t & R1' & Hg & R2' & Hy).
    exists sa', sb', t. simpl. rewrite Hget. repeat split; auto.
    + eapply reachable_from_trans; eassumption.
    + eapply reachable_from_trans; eassumption.
  - destruct x; try discriminate. simpl in Hp.
    destruct (nth_error elems i) as [xv|] eqn:En; [|discriminate].
    apply wf_json_list in Hwf.
    apply sanitize_list_Ok in Hs as (vs & Hrun & ->).
    destruct (run_list_nth _ _ _ _ _ _ _ Hrun En)
      as (sa & sb & yv & R1 & Hxv & R2 & Hget).
    assert (Hwv : wf_json xv).
    { rewrite Forall_forall in Hwf. apply Hwf.
      apply list_elem_of_In. eapply nth_error_In, En. }
    destruct (IH _ _ _ _ _ _ Hwv Hxv Hp)
      as (sa' & sb' & t & R1' & Hg & R2' & Hy).
    exists sa', sb', t. simpl. rewrite Hget. repeat split; auto.
    + eapply reachable_from_trans; eassumption.
    + eapply reachable_from_trans; eassumption.
Qed.

(** ** Checks of the model against the interpreter *)

Example sha256_constants :
  length SHA256.K = 64%nat /\
  nth 0 SHA256.K 0 = 0x428a2f98 /\ nth 63 SHA256.K 0 = 0xc67178f2 /\
  SHA256.ha SHA256.H0 = 0x6a09e667 /\ SHA256.hh SHA256.H0 = 0x5be0cd19.
Proof. vm_compute. repeat split. Qed.

Example sha256_vectors :
  SHA256.hexdigest [] =
    lit "e3b0c44298fc1c149afbf4c8996fb92427ae41e4649b934ca495991b7852b855" /\
  SHA256.hexdigest (lit "abc") =
    lit "ba7816bf8f01cfea414140de5dae2223b00361a396177a9cb410ff61f20015ad" /\
  SHA256.hexdigest
    (lit "abcdbcdecdefdefgefghfghighijhijkijkljklmklmnlmnomnopnopq") =
    lit "248d6a61d20638b8e5c026930c3e6039a33ce45964ff2167f6ecedd419db06c1".
Proof. vm_compute. auto. Qed.

Example utf8_vectors :
  utf8_encode [0x41; 0xE9; 0x20AC; 0x1F600] =
    Some [0x41; 0xC3; 0xA9; 0xE2; 0x82; 0xAC; 0xF0; 0x9F; 0x98; 0x80] /\
  utf8_encode lone_surrogate = None.
Proof. vm_compute. auto. Qed.

Example pattern_vectors :
  Re.match_ ISO_TS_RE (lit "2026-02-23T10:00:00Z") = true /\
  Re.match_ ISO_TS_RE (lit "2026-02-23T10:00:00.125Z") = true /\
  Re.match_ ISO_TS_RE (lit "2026-02-23T10:00:00.Z") = false /\
  Re.match_ ISO_TS_RE (lit "2026-02-23T10:00:00") = false /\
  Re.match_ ISO_TS_RE (lit "2026-02-23T10:00:00Z" ++ [10]) = true /\
  Re.match_ DATE_RE (lit "2026-02-23") = true /\
  Re.match_ DATE_RE (lit "2026-2-23") = false /\
  Re.match_ UUIDISH_RE (lit "0199A2b4-7c1e-7f30-9d55-0123456789ab") = true /\
  Re.match_ UUIDISH_RE (lit "0199a2b-7c1e-7f30") = false /\
  Re.match_ ENUM_RE (lit "in_progress:exec/v1.2") = true /\
  Re.match_ ENUM_RE (lit "two words") = false /\
  Re.match_ ENUM_RE [] = false.
Proof. vm_compute. repeat split. Qed.

(** ** The scenario of the user message *)

Lemma user_message_run :
  sanitize user_message_record [] init =
  Ok (JDict [ (lit "type", JStr (lit "user_message"));
              (lit "cwd", JStr (lit "/redacted/path/2711bd02af"));
              (lit "content",
               JStr (lit "[REDACTED_CONTENT len=24 sha=ea740f7e]")) ],
      after_user_message).
Proof. vm_compute. reflexivity. Qed.

(** C1 (amended).  Sanitizing the record
    [{"type":"user_message","cwd":"/Users/alice/proj","content":"fix the
    bug in parser.py"}] with a fresh sanitizer leaves [type] unchanged,
    replaces [cwd] by ["/redacted/path/"] followed by 10 hexadecimal
    characters and replaces [content] by
    ["[REDACTED_CONTENT len=24 sha=<8 hex characters>]"]: the content is
    24 characters long. *)
Theorem user_message_scenario :
  exists y st' token_hex sha,
    sanitize user_message_record [] init = Ok (y, st') /\
    at_path [Key (lit "type")] y = Some (JStr (lit "user_message")) /\
    at_path [Key (lit "cwd")] y =
      Some (JStr (lit "/redacted/path/" ++ token_hex)) /\
    length token_hex = 10%nat /\ forallb is_hex token_hex = true /\
    at_path [Key (lit "content")] y =
      Some (JStr (lit "[REDACTED_CONTENT len=24 sha=" ++ sha ++ lit "]")) /\
    length sha = 8%nat /\ forallb is_hex sha = true /\
    length (lit "fix the bug in parser.py") = 24%nat.
Proof.
  do 2 eexists. exists (lit "2711bd02af"), (lit "ea740f7e").
  split; [apply user_message_run|]. vm_compute. repeat split.
Qed.

(** C2 (the code departs from the claim).  Two values that reach the ninth
    test of the classifier, one with a scheme other than http(s) and one
    with a URL inside a sentence: every earlier test fails, the value
    contains ["://"], and the classifier returns it as it came, storing
    nothing. *)
Theorem heuristic_url_left_in_clear :
  let key := lit "remote" in
  let value := lit "ssh://build.example.org/alice/repo.git" in
  let key' := lit "note" in
  let value' := lit "see https://intranet.example.org/alice" in
  (key_in key PATHISH_KEYS || key_in key URLISH_KEYS
   || Re.match_ ISO_TS_RE value || Re.match_ DATE_RE value
   || endswith (lit "timestamp") (lower key) || key_in key ENUM_KEYS
   || (key_in key ID_KEYS && Re.match_ UUIDISH_RE value)
   || key_in key TEXTISH_KEYS || startswith (lit "/") value
   || startswith (lit "~/") value) = false /\
  contains (lit "://") value = true /\
  sanitize_generic_string key value init = Ok (value, init) /\
  (key_in key' PATHISH_KEYS || key_in key' URLISH_KEYS
   || Re.match_ ISO_TS_RE value' || Re.match_ DATE_RE value'
   || endswith (lit "timestamp") (lower key') || key_in key' ENUM_KEYS
   || (key_in key' ID_KEYS && Re.match_ UUIDISH_RE value')
   || key_in key' TEXTISH_KEYS || startswith (lit "/") value'
   || startswith (lit "~/") value') = false /\
  contains (lit "://") value' = true /\
  sanitize_generic_string key' value' init = Ok (value', init).
Proof. vm_compute. repeat split. Qed.

(** ** Keys and values preserved verbatim *)

Lemma enum_key_verbatim k v st :
  key_in k PATHISH_KEYS = false ->
  key_in k URLISH_KEYS = false ->
  key_in k ENUM_KEYS = true ->
  sanitize_generic_string k v st = Ok (v, st).
Proof.
  intros Hp Hu He. unfold sanitize_generic_string. rewrite Hp, Hu, He.
  destruct (Re.match_ ISO_TS_RE v || Re.match_ DATE_RE v); [reflexivity|].
  destruct (endswith (lit "timestamp") (lower k)
            || endswith (lit "_timestamp") (lower k)); reflexivity.
Qed.

Lemma key_in_cases k keys :
  key_in k keys = true -> In k keys.
Proof.
  unfold key_in. rewrite existsb_exists.
  intros (x & Hx & Heq). unfold pystr_eqb in Heq.
  apply bool_decide_eq_true in Heq. subst. exact Hx.
Qed.

Lemma verbatim_key_verbatim k v st :
  key_in k VERBATIM_KEYS = true ->
  sanitize_generic_string k v st = Ok (v, st).
Proof.
  intros Hk. apply key_in_cases in Hk. simpl in Hk.
  destruct Hk as [<-|[<-|[<-|[<-|[<-|[]]]]]];
    apply enum_key_verbatim; reflexivity.
Qed.

Lemma context_key_snoc pk p k : context_key pk (p ++ [Key k]) = k.
Proof.
  revert pk. induction p as [|[k0|i] p IH]; intros pk; simpl; auto.
Qed.

(** C5.  A string stored under [type], [role], [model], [model_provider] or
    [cli_version] is returned unchanged: by the classifier for every value
    and from every state, and by the record walk at every depth (the path
    [p] to the dict that holds the key is arbitrary). *)
Theorem verbatim_keys_unchanged k :
  key_in k VERBATIM_KEYS = true ->
  (forall v st, sanitize_generic_string k v st = Ok (v, st)) /\
  (forall x pk st y st' p v,
      wf_json x ->
      sanitize x pk st = Ok (y, st') ->
      at_path (p ++ [Key k]) x = Some (JStr v) ->
      at_path (p ++ [Key k]) y = Some (JStr v)).
Proof.
  intros Hk. split.
  - intros v st. apply verbatim_key_verbatim, Hk.
  - intros x pk st y st' p v Hwf Hs Hp.
    destruct (sanitize_leaf _ _ _ _ _ _ _ Hwf Hs Hp)
      as (sa & sb & t & _ & Hg & _ & Hy).
    rewrite context_key_snoc in Hg.
    rewrite verbatim_key_verbatim in Hg by exact Hk.
    injection Hg as <- _. exact Hy.
Qed.

(** C8.  Under a key that is neither path-bearing nor URL-bearing, a value
    that matches the ISO-8601 timestamp pattern or the calendar-date
    pattern is returned unchanged and nothing is stored; the record
    [{"timestamp":"2026-02-23T10:00:00Z"}] sanitizes to itself from every
    state. *)
Theorem timestamps_preserved :
  (forall key value st,
      key_in key PATHISH_KEYS = false ->
      key_in key URLISH_KEYS = false ->
      Re.match_ ISO_TS_RE value || Re.match_ DATE_RE value = true ->
      sanitize_generic_string key value st = Ok (value, st)) /\
  (forall st, sanitize timestamp_record [] st = Ok (timestamp_record, st)).
Proof.
  split.
  - intros key value st Hp Hu Hts. unfold sanitize_generic_string.
    rewrite Hp, Hu, Hts. reflexivity.
  - intros st. vm_compute. reflexivity.
Qed.

(** ** Text redaction *)

Lemma lit_roundtrip s :
  string_of_list_ascii (List.map ascii_of_N (lit s)) = s.
Proof.
  unfold lit. rewrite List.map_map.
  rewrite (List.map_ext _ (fun a => a)) by apply ascii_N_embedding.
  rewrite List.map_id. apply string_of_list_ascii_of_string.
Qed.

Lemma int_of_str_of_N n : int_of_str (str_of_N n) = Some n.
Proof.
  unfold int_of_str, str_of_N. rewrite lit_roundtrip.
  rewrite NilZero.usu.
  - simpl. f_equal. apply DecimalN.Unsigned.of_to.
  - destruct n as [|p]; [discriminate|].
    apply DecimalPos.Unsigned.to_uint_nonnil.
Qed.

(** C6 (amended).  [sanitize_text] returns exactly
    ["[REDACTED_<K> len=<N> sha=<D>]"], where <K> is the key upper-cased,
    or [TEXT] when the key is empty, <N> is the decimal length of the
    value and <D> is the first 8 hexadecimal characters of the SHA-256
    digest of its UTF-8 encoding; it stores nothing.  When the value has
    no UTF-8 encoding the call raises [UnicodeEncodeError]. *)
Theorem redaction_placeholder k v st :
  sanitize_text k v st =
    match utf8_encode v with
    | Some bytes =>
        Ok (lit "[REDACTED_"
              ++ upper (if bool_decide (k = []) then lit "text" else k)
              ++ lit " len=" ++ str_of_N (N.of_nat (length v))
              ++ lit " sha=" ++ firstn 8 (SHA256.hexdigest bytes)
              ++ lit "]", st)
    | None => UnicodeEncodeError
    end /\
  int_of_str (str_of_N (N.of_nat (length v))) = Some (N.of_nat (length v)) /\
  (forall bytes,
      length (firstn 8 (SHA256.hexdigest bytes)) = 8%nat /\
      Forall (fun c => is_hex c = true) (firstn 8 (SHA256.hexdigest bytes))).
Proof.
  split; [|split].
  - rewrite sanitize_text_eq. unfold _hash, placeholder.
    destruct (utf8_encode v) as [bytes|]; [|reflexivity]. simpl.
    destruct k; reflexivity.
  - apply int_of_str_of_N.
  - intros bytes. split.
    + rewrite length_firstn, hexdigest_length. reflexivity.
    + apply Forall_take, hexdigest_is_hex.
Qed.

(** ** Structure preservation *)

(** C3 (amended).  For every JSON value whose dicts have distinct keys,
    whatever [sanitize] returns has the shape of the input: the same keys
    in the same order in every dict, the same length and order in every
    list, equal non-string scalars; only string leaves differ.  ([sanitize]
    does not return for every value: a lone surrogate in a string it hashes
    makes it raise.) *)
Theorem sanitize_preserves_shape x pk st y st' :
  wf_json x ->
  sanitize x pk st = Ok (y, st') ->
  shape y = shape x.
Proof.
  intros Hwf Hs. eapply sanitize_shape_Ok; eassumption.
Qed.

(** ** Tokens within one run *)

Lemma path_token_kept v st t st1 st2 :
  sanitize_path v st = Ok (t, st1) ->
  reachable_from st1 st2 ->
  sanitize_path v st2 = Ok (t, st2).
Proof.
  intros (Hl & _)%sanitize_path_Ok (Hp & _)%reachable_from_extends.
  pose proof (lookup_weaken _ _ _ _ Hl Hp) as Hl2.
  unfold sanitize_path, bind, get. rewrite Hl2. reflexivity.
Qed.

Lemma url_token_kept v st t st1 st2 :
  sanitize_url v st = Ok (t, st1) ->
  reachable_from st1 st2 ->
  sanitize_url v st2 = Ok (t, st2).
Proof.
  intros (_ & Hno & Hyes)%sanitize_url_Ok (_ & Hu & _)%reachable_from_extends.
  unfold sanitize_url. destruct (url_marker v).
  - destruct (Hyes eq_refl) as (Hl & _).
    pose proof (lookup_weaken _ _ _ _ Hl Hu) as Hl2.
    unfold bind, get. rewrite Hl2. reflexivity.
  - destruct (Hno eq_refl) as [-> _]. reflexivity.
Qed.

(** C4.  Within one run a value pseudonymized a second time, after any
    further calls, gets the token of its first occurrence, for paths and
    for URLs; and two records sanitized in the same run that hold the same
    string under a path-bearing key (such as [cwd]) carry the same token
    there. *)
Theorem repeated_value_same_token :
  (forall v st t st1 st2,
      sanitize_path v st = Ok (t, st1) ->
      reachable_from st1 st2 ->
      sanitize_path v st2 = Ok (t, st2)) /\
  (forall v st t st1 st2,
      sanitize_url v st = Ok (t, st1) ->
      reachable_from st1 st2 ->
      sanitize_url v st2 = Ok (t, st2)) /\
  (forall k v x1 p1 pk1 st y1 st1 x2 p2 pk2 st1' y2 st2,
      key_in k PATHISH_KEYS = true ->
      wf_json x1 -> wf_json x2 ->
      at_path (p1 ++ [Key k]) x1 = Some (JStr v) ->
      at_path (p2 ++ [Key k]) x2 = Some (JStr v) ->
      sanitize x1 pk1 st = Ok (y1, st1) ->
      reachable_from st1 st1' ->
      sanitize x2 pk2 st1' = Ok (y2, st2) ->
      exists t,
        at_path (p1 ++ [Key k]) y1 = Some (JStr t) /\
        at_path (p2 ++ [Key k]) y2 = Some (JStr t)).
Proof.
  split; [exact path_token_kept | split; [exact url_token_kept|]].
  intros k v x1 p1 pk1 st y1 st1 x2 p2 pk2 st1' y2 st2
         Hk Hw1 Hw2 Hp1 Hp2 Hs1 Hr Hs2.
  destruct (sanitize_leaf _ _ _ _ _ _ _ Hw1 Hs1 Hp1)
    as (sa & sb & t & _ & Hg1 & Rb & Hy1).
  destruct (sanitize_leaf _ _ _ _ _ _ _ Hw2 Hs2 Hp2)
    as (sa' & sb' & t' & Ra' & Hg2 & _ & Hy2).
  rewrite context_key_snoc in Hg1, Hg2.
  unfold sanitize_generic_string in Hg1, Hg2. rewrite Hk in Hg1, Hg2.
  assert (Hreach : reachable_from sb sa').
  { eapply reachable_from_trans; [|exact Ra'].
    eapply reachable_from_trans; eassumption. }
  rewrite (path_token_kept _ _ _ _ _ Hg1 Hreach) in Hg2.
  injection Hg2 as <- _. exists t. auto.
Qed.

(** ** URLs *)

Lemma value_of_Ok {A} (r : result (A * Sanitizer)) a :
  value_of r = Ok a -> exists st', r = Ok (a, st').
Proof.
  destruct r as [[a' s]|]; simpl; [|discriminate].
  intros [= ->]. eauto.
Qed.

Lemma url_token_differs v h :
  url_marker v = true -> lit "redacted://url/" ++ h <> v.
Proof.
  intros Hm Heq. rewrite <- Heq in Hm. vm_compute in Hm. discriminate.
Qed.

(** C7 (amended).  In a reachable state, [sanitize_url] returns a value
    that does not begin with ["https://"], ["http://"] or ["git@"]
    unchanged and stores nothing; for a value that begins with one of them
    and has a UTF-8 encoding it returns the token ["redacted://url/"]
    followed by 10 hexadecimal characters, which differs from the value;
    for a value that begins with one of them and has no UTF-8 encoding it
    raises [UnicodeEncodeError]. *)
Theorem sanitize_url_cases v st :
  reachable st ->
  (url_marker v = false -> sanitize_url v st = Ok (v, st)) /\
  (url_marker v = true -> utf8_encode v <> None ->
     exists h st',
       sanitize_url v st = Ok (lit "redacted://url/" ++ h, st') /\
       _hash v 10 = Ok h /\ length h = 10%nat /\
       Forall (fun c => is_hex c = true) h /\
       lit "redacted://url/" ++ h <> v) /\
  (url_marker v = true -> utf8_encode v = None ->
     sanitize_url v st = UnicodeEncodeError).
Proof.
  intros [_ Cu]%reachable_consistent. split; [|split].
  - intros Hm. unfold sanitize_url. rewrite Hm. reflexivity.
  - intros Hm [h Hh]%(_hash_encodable v 10).
    pose proof (sanitize_url_value v st Cu) as Hv.
    rewrite Hm, Hh in Hv. simpl in Hv.
    apply value_of_Ok in Hv as [st' Hs].
    destruct (_hash_Ok _ _ _ Hh) as [Hlen Hhex].
    exists h, st'. repeat split; auto.
    apply url_token_differs, Hm.
  - intros Hm Hnone.
    assert (Hh : _hash v 10 = UnicodeEncodeError).
    { unfold _hash. rewrite Hnone. reflexivity. }
    unfold sanitize_url. rewrite Hm. unfold bind, get, lift.
    destruct (url_map st !! v) as [t0|] eqn:E.
    + destruct (Cu _ _ E) as (h & Hh' & _). congruence.
    + rewrite Hh. reflexivity.
Qed.

(** ** Determinism *)

(** C9.  The outcome of [sanitize] on an input is the same in any two
    reachable states, in particular in two fresh ones: the same value, or
    the same exception. *)
Theorem sanitize_two_runs x pk st1 st2 :
  reachable st1 -> reachable st2 ->
  value_of (sanitize x pk st1) = value_of (sanitize x pk st2).
Proof.
  intros R1 R2. apply sanitize_stable; apply reachable_consistent; assumption.
Qed.

(** ** The path map *)

(** C10 (amended).  In every reachable state and for every string with a
    UTF-8 encoding, [sanitize_path] returns ["/redacted/path/"] followed by
    the first 10 characters of the hexadecimal SHA-256 digest of that
    encoding, whatever the maps hold; for a string without one it raises
    [UnicodeEncodeError].  Every stored entry maps its original to that
    token, and later states keep every entry as it is. *)
Theorem path_tokens_fixed st :
  reachable st ->
  (forall v,
      value_of (sanitize_path v st) =
      match utf8_encode v with
      | Some bytes =>
          Ok (lit "/redacted/path/" ++ firstn 10 (SHA256.hexdigest bytes))
      | None => UnicodeEncodeError
      end) /\
  (forall v t,
      path_map st !! v = Some t ->
      exists bytes,
        utf8_encode v = Some bytes /\
        t = lit "/redacted/path/" ++ firstn 10 (SHA256.hexdigest bytes)) /\
  (forall st' v t,
      reachable_from st st' ->
      path_map st !! v = Some t -> path_map st' !! v = Some t).
Proof.
  intros [Cp _]%reachable_consistent. split; [|split].
  - intros v. rewrite sanitize_path_value by exact Cp.
    unfold _hash. destruct (utf8_encode v); reflexivity.
  - intros v t Hl. destruct (Cp _ _ Hl) as (h & Hh & ->).
    unfold _hash in Hh. destruct (utf8_encode v) as [bytes|];
      [|discriminate].
    injection Hh as <-. eauto.
  - intros st' v t (Hp & _)%reachable_from_extends Hl.
    eapply lookup_weaken; eassumption.
Qed.

(** ** The class without its maps *)

Lemma sanitize_text_value k v st :
  value_of (sanitize_text k v st) = redaction k v.
Proof.
  rewrite sanitize_text_eq. unfold redaction, value_of.
  destruct (_hash v 8); reflexivity.
Qed.

Lemma classify_value k v st :
  consistent st ->
  value_of (sanitize_generic_string k v st) = classify k v.
Proof.
  intros [Cp Cu]. unfold sanitize_generic_string, classify.
  repeat match goal with
         | |- context [if ?b then _ else _] => destruct b
         end;
    try reflexivity;
    first [ apply sanitize_path_value, Cp
          | apply sanitize_url_value, Cu
          | apply sanitize_text_value ].
Qed.

Lemma leaf_replaced st x pk y st' p v :
  reachable st ->
  wf_json x ->
  sanitize x pk st = Ok (y, st') ->
  at_path p x = Some (JStr v) ->
  exists t,
    classify (context_key pk p) v = Ok t /\ at_path p y = Some (JStr t).
Proof.
  intros Hr Hwf Hs Hp.
  destruct (sanitize_leaf _ _ _ _ _ _ _ Hwf Hs Hp)
    as (sa & sb & t & Ra & Hg & _ & Hy).
  exists t. split; [|exact Hy].
  assert (Ca : consistent sa).
  { apply reachable_consistent. eapply reachable_from_trans; eassumption. }
  rewrite <- (classify_value _ _ sa Ca), Hg. reflexivity.
Qed.

(** X1.  A string leaf is replaced according to its own content and the key
    in force at its place (the nearest enclosing dict key; lists hand their
    key down), and nothing else.  Take two records, sanitized in any two
    reachable states, possibly in different runs: where both hold the same
    string under the same key in force, both outputs hold the same
    replacement, the one the map-free classifier gives. *)
Theorem leaf_depends_on_key_and_value
    st1 x1 pk1 y1 st1' p1 st2 x2 pk2 y2 st2' p2 v :
  reachable st1 -> reachable st2 ->
  wf_json x1 -> wf_json x2 ->
  sanitize x1 pk1 st1 = Ok (y1, st1') ->
  sanitize x2 pk2 st2 = Ok (y2, st2') ->
  at_path p1 x1 = Some (JStr v) ->
  at_path p2 x2 = Some (JStr v) ->
  context_key pk1 p1 = context_key pk2 p2 ->
  exists t,
    classify (context_key pk1 p1) v = Ok t /\
    at_path p1 y1 = Some (JStr t) /\
    at_path p2 y2 = Some (JStr t).
Proof.
  intros R1 R2 W1 W2 S1 S2 P1 P2 Hctx.
  destruct (leaf_replaced _ _ _ _ _ _ _ R1 W1 S1 P1) as (t1 & C1 & Y1).
  destruct (leaf_replaced _ _ _ _ _ _ _ R2 W2 S2 P2) as (t2 & C2 & Y2).
  rewrite <- Hctx, C1 in C2. injection C2 as <-.
  exists t1. auto.
Qed.


(** ** What the key decides *)

Ltac each_key H :=
  apply key_in_cases in H; simpl in H;
  repeat (destruct H as [<- | H]); [.. | destruct H].

Lemma text_key_classify k v :
  key_in k TEXTISH_KEYS = true ->
  Re.match_ ISO_TS_RE v || Re.match_ DATE_RE v = false ->
  classify k v = redaction k v /\ or_else k (lit "text") = k.
Proof.
  intros Hk Hts. each_key Hk;
    (split; [unfold classify; rewrite Hts; reflexivity | reflexivity]).
Qed.

(** X2.  Redaction of free text.  A string whose key in force is one of the
    free-text keys ([message], [content], [arguments], ...; for a string
    inside a list, the key of the list) and which is not timestamp- or
    date-shaped is replaced, wherever it sits in the record, by
    ["[REDACTED_<KEY> len=<length> sha=<8 hex characters>]"] built from the
    key upper-cased, the length of the string and its SHA-256 digest. *)
Theorem free_text_redacted st x pk y st' p k v :
  reachable st ->
  wf_json x ->
  sanitize x pk st = Ok (y, st') ->
  at_path p x = Some (JStr v) ->
  context_key pk p = k ->
  key_in k TEXTISH_KEYS = true ->
  Re.match_ ISO_TS_RE v || Re.match_ DATE_RE v = false ->
  exists bytes,
    utf8_encode v = Some bytes /\
    at_path p y =
      Some (JStr (lit "[REDACTED_" ++ upper k ++ lit " len="
                    ++ str_of_N (N.of_nat (length v)) ++ lit " sha="
                    ++ firstn 8 (SHA256.hexdigest bytes) ++ lit "]")).
Proof.
  intros Hr Hwf Hs Hp Hctx Hk Hts.
  destruct (leaf_replaced _ _ _ _ _ _ _ Hr Hwf Hs Hp) as (t & Hc & Hy).
  rewrite Hctx in Hc.
  destruct (text_key_classify _ _ Hk Hts) as [Hcl Hor].
  rewrite Hcl in Hc. unfold redaction, _hash in Hc. rewrite Hor in Hc.
  destruct (utf8_encode v) as [bytes|]; [|discriminate].
  simpl in Hc. injection Hc as <-. exists bytes. auto.
Qed.

Lemma url_key_classify k v :
  key_in k URLISH_KEYS = true -> classify k v = url_token v.
Proof. intros Hk. each_key Hk; reflexivity. Qed.

(** X3.  Fail-open under URL keys.  A string whose key in force is
    [repository_url], [url], [href] or [webhookPath] and which does not
    begin with ["https://"], ["http://"] or ["git@"] is left exactly as it
    is, whatever it contains, at every depth. *)
Theorem url_key_passes_other_values st x pk y st' p k v :
  reachable st ->
  wf_json x ->
  sanitize x pk st = Ok (y, st') ->
  at_path p x = Some (JStr v) ->
  context_key pk p = k ->
  key_in k URLISH_KEYS = true ->
  url_marker v = false ->
  at_path p y = Some (JStr v).
Proof.
  intros Hr Hwf Hs Hp Hctx Hk Hm.
  destruct (leaf_replaced _ _ _ _ _ _ _ Hr Hwf Hs Hp) as (t & Hc & Hy).
  rewrite Hctx, (url_key_classify _ _ Hk) in Hc.
  unfold url_token in Hc. rewrite Hm in Hc. injection Hc as <-. exact Hy.
Qed.

Lemma id_key_classify k v :
  key_in k ID_KEYS = true ->
  Re.match_ UUIDISH_RE v = true ->
  classify k v = Ok v.
Proof.
  intros Hk Hu. each_key Hk; unfold classify; simpl;
    destruct (Re.match_ ISO_TS_RE v || Re.match_ DATE_RE v);
    try reflexivity; rewrite Hu; reflexivity.
Qed.

(** X4.  Identifiers.  A string under [id], [session_id] or [sessionId]
    that is UUID-shaped (8 or more hexadecimal digits, a hyphen, 8 or more
    hexadecimal digits or hyphens) is kept as it is at every depth. *)
Theorem uuid_ids_kept st x pk y st' p k v :
  reachable st ->
  wf_json x ->
  sanitize x pk st = Ok (y, st') ->
  at_path p x = Some (JStr v) ->
  context_key pk p = k ->
  key_in k ID_KEYS = true ->
  Re.match_ UUIDISH_RE v = true ->
  at_path p y = Some (JStr v).
Proof.
  intros Hr Hwf Hs Hp Hctx Hk Hu.
  destruct (leaf_replaced _ _ _ _ _ _ _ Hr Hwf Hs Hp) as (t & Hc & Hy).
  rewrite Hctx, (id_key_classify _ _ Hk Hu) in Hc.
  injection Hc as <-. exact Hy.
Qed.

(** ** Rules for [preserves], [replays] and [stores_at_most] *)

Section StatePredicate.

Variable P : Sanitizer -> Prop.

Lemma preserves_ret {A} (a : A) : preserves P (ret a).
Proof. intros st a' st' [= <- <-]. auto. Qed.

Lemma preserves_bind {A B} (m : M A) (k : A -> M B) :
  preserves P m -> (forall a, preserves P (k a)) -> preserves P (bind m k).
Proof.
  intros Hm Hk st b st' (a & s & H1 & H2)%bind_Ok HP.
  eapply Hk; [exact H2|]. eapply Hm; eassumption.
Qed.

Lemma preserves_for_each {A B} (f : A -> M B) l :
  Forall (fun a => preserves P (f a)) l -> preserves P (for_each f l).
Proof.
  induction 1 as [|a l Ha _ IH]; [apply preserves_ret|].
  rewrite for_each_cons. apply preserves_bind; [assumption|].
  intros v'. apply preserves_bind; [assumption|].
  intros r. apply preserves_ret.
Qed.

Lemma preserves_for_items f its out :
  Forall (fun kv => preserves P (f (fst kv) (snd kv))) its ->
  preserves P (for_items f its out).
Proof.
  intros H. revert out.
  induction H as [|[k v] rest Hkv _ IH]; intros out; [apply preserves_ret|].
  rewrite for_items_cons. apply preserves_bind; [assumption|].
  intros v'. apply IH.
Qed.

Hypothesis path_keeps : forall v, preserves P (sanitize_path v).
Hypothesis url_keeps : forall v, preserves P (sanitize_url v).

Lemma preserves_text k v : preserves P (sanitize_text k v).
Proof.
  intros st t st'. rewrite sanitize_text_eq.
  destruct (_hash v 8); simpl; [|discriminate]. intros [= <- <-]. auto.
Qed.

Lemma preserves_classifier k v : preserves P (sanitize_generic_string k v).
Proof.
  classifier_cases;
    auto using preserves_ret, preserves_text, path_keeps, url_keeps.
Qed.

Lemma preserves_sanitize x : forall pk, preserves P (sanitize x pk).
Proof.
  induction x as [ | | | | s | elems IH | items IH ] using json_ind;
    intros pk; simpl; try apply preserves_ret.
  - apply preserves_bind; [apply preserves_classifier|].
    intros s'. apply preserves_ret.
  - apply preserves_bind; [|intros out; apply preserves_ret].
    apply preserves_for_each. eapply Forall_impl; [exact IH|]. auto.
  - apply preserves_bind; [|intros out; apply preserves_ret].
    apply preserves_for_items. eapply Forall_impl; [exact IH|]. auto.
Qed.

Lemma preserves_reachable_from st st' :
  reachable_from st st' -> P st -> P st'.
Proof.
  induction 1 as [|c st1 st2 _ IH Hc]; [auto|].
  intros HP. specialize (IH HP).
  destruct c; simpl in Hc; apply state_after_Ok in Hc as [a Ha];
    revert Ha IH.
  - apply path_keeps.
  - apply url_keeps.
  - apply preserves_text.
  - apply preserves_classifier.
  - apply preserves_sanitize.
Qed.

End StatePredicate.

Lemma url_keys_marked_reachable st : reachable st -> url_keys_marked st.
Proof.
  intros Hr. apply (preserves_reachable_from url_keys_marked) with init.
  - intros v st0 t st' (_ & Hu & _)%sanitize_path_Ok Hk w tw.
    rewrite Hu. apply Hk.
  - intros v st0 t st' (_ & Hno & Hyes)%sanitize_url_Ok Hk w tw.
    destruct (url_marker v) eqn:Em.
    + destruct (Hyes eq_refl) as (_ & Hnew & Hold).
      destruct (url_map st0 !! v) as [t0|] eqn:E.
      * destruct (Hold t0 eq_refl) as [_ ->]. apply Hk.
      * destruct (Hnew eq_refl) as (h & _ & _ & ->).
        rewrite lookup_insert_Some.
        intros [[<- _] | [_ Hw]]; [exact Em | apply (Hk _ _ Hw)].
    + destruct (Hno eq_refl) as [_ ->]. apply Hk.
  - exact Hr.
  - intros v t H. simpl in H. rewrite lookup_empty in H. discriminate.
Qed.

(** X5.  What the maps hold.  In every reachable state the third map,
    [string_map], is still empty (no method writes it); every key of the URL
    map begins with ["https://"], ["http://"] or ["git@"] and differs from
    its token; and every stored token, path or URL, is 25 characters long
    (a 15-character prefix and 10 hexadecimal digits). *)
Theorem stored_entries_wellformed st :
  reachable st ->
  string_map st = ∅ /\
  (forall v t, url_map st !! v = Some t ->
     url_marker v = true /\ length t = 25%nat /\ t <> v /\
     startswith (lit "redacted://url/") t = true) /\
  (forall v t, path_map st !! v = Some t ->
     length t = 25%nat /\ startswith (lit "/redacted/path/") t = true).
Proof.
  intros Hr. split; [|split].
  - apply reachable_from_extends in Hr as (_ & _ & Hs). exact Hs.
  - intros v t Hl.
    pose proof (url_keys_marked_reachable _ Hr _ _ Hl) as Hm.
    destruct (reachable_consistent _ Hr) as [_ Cu].
    destruct (Cu _ _ Hl) as (h & Hh & ->).
    destruct (_hash_Ok _ _ _ Hh) as [Hlen _].
    repeat split; auto.
    + rewrite length_app, Hlen. reflexivity.
    + apply url_token_differs, Hm.
  - intros v t Hl.
    destruct (reachable_consistent _ Hr) as [Cp _].
    destruct (Cp _ _ Hl) as (h & Hh & ->).
    destruct (_hash_Ok _ _ _ Hh) as [Hlen _].
    split; [|reflexivity].
    rewrite length_app, Hlen. reflexivity.
Qed.

(** ** Sanitizing again *)

Lemma replays_ret {A} (a : A) : replays (ret a).
Proof. intros st a' st1 st2 [= <- <-] _. reflexivity. Qed.

Lemma replays_bind {A B} (m : M A) (k : A -> M B) :
  replays m -> (forall a, sound (k a)) -> (forall a, replays (k a)) ->
  replays (bind m k).
Proof.
  intros Hm Hs Hk st b st1 st2 (a & s & H1 & H2)%bind_Ok Hext.
  apply bind_Ok. exists a, st2. split.
  - eapply Hm; [exact H1|].
    eapply extends_trans; [|exact Hext]. apply (Hs _ _ _ _ H2).
  - eapply Hk; eassumption.
Qed.

Lemma replays_path v : replays (sanitize_path v).
Proof.
  intros st t st1 st2 (Hl & _)%sanitize_path_Ok (Hp & _).
  pose proof (lookup_weaken _ _ _ _ Hl Hp) as Hl2.
  unfold sanitize_path, bind, get. rewrite Hl2. reflexivity.
Qed.

Lemma replays_url v : replays (sanitize_url v).
Proof.
  intros st t st1 st2 (_ & Hno & Hyes)%sanitize_url_Ok (_ & Hu & _).
  unfold sanitize_url. destruct (url_marker v).
  - destruct (Hyes eq_refl) as (Hl & _).
    pose proof (lookup_weaken _ _ _ _ Hl Hu) as Hl2.
    unfold bind, get. rewrite Hl2. reflexivity.
  - destruct (Hno eq_refl) as [-> _]. reflexivity.
Qed.

Lemma replays_text k v : replays (sanitize_text k v).
Proof.
  intros st t st1 st2. rewrite !sanitize_text_eq.
  destruct (_hash v 8); simpl; [|discriminate].
  intros [= <- <-] _. reflexivity.
Qed.

Lemma replays_classifier k v : replays (sanitize_generic_string k v).
Proof.
  classifier_cases;
    auto using replays_ret, replays_path, replays_url, replays_text.
Qed.

Lemma replays_for_each {A B} (f : A -> M B) l :
  Forall (fun a => sound (f a) /\ replays (f a)) l -> replays (for_each f l).
Proof.
  induction 1 as [|a l [Hs Ha] Hl IH]; [apply replays_ret|].
  rewrite for_each_cons. apply replays_bind; [assumption| |].
  - intros v'. apply sound_bind; [|intros r; apply sound_ret].
    apply for_each_sound. eapply Forall_impl; [exact Hl|].
    intros ? [? _]. assumption.
  - intros v'. apply replays_bind; [assumption| |].
    + intros r. apply sound_ret.
    + intros r. apply replays_ret.
Qed.

Lemma replays_for_items f its out :
  Forall (fun kv => sound (f (fst kv) (snd kv)) /\
                    replays (f (fst kv) (snd kv))) its ->
  replays (for_items f its out).
Proof.
  intros H. revert out.
  induction H as [|[k v] rest [Hs Hkv] Hl IH]; intros out;
    [apply replays_ret|].
  rewrite for_items_cons. apply replays_bind; [assumption| |].
  - intros v'. apply for_items_sound. eapply Forall_impl; [exact Hl|].
    intros ? [? _]. assumption.
  - intros v'. apply IH.
Qed.

Lemma replays_sanitize x : forall pk, replays (sanitize x pk).
Proof.
  induction x as [ | | | | s | elems IH | items IH ] using json_ind;
    intros pk; simpl; try apply replays_ret.
  - apply replays_bind;
      [apply replays_classifier | intros; apply sound_ret
      | intros; apply replays_ret].
  - apply replays_bind;
      [| intros; apply sound_ret | intros; apply replays_ret].
    apply replays_for_each. eapply Forall_impl; [exact IH|].
    intros v Hv. split; [apply sanitize_sound | apply Hv].
  - apply replays_bind;
      [| intros; apply sound_ret | intros; apply replays_ret].
    apply replays_for_items. eapply Forall_impl; [exact IH|].
    intros v Hv. split; [apply sanitize_sound | apply Hv].
Qed.

(** X6.  Sanitizing the same value again later in the run, after any other
    calls, returns the same output and leaves the maps exactly as they were:
    the second pass only reads tokens the first pass stored. *)
Theorem second_pass_reads_only x pk st y st1 st2 :
  sanitize x pk st = Ok (y, st1) ->
  reachable_from st1 st2 ->
  sanitize x pk st2 = Ok (y, st2).
Proof.
  intros Hs Hr. eapply replays_sanitize; [exact Hs|].
  apply reachable_from_extends, Hr.
Qed.

(** ** Values without strings *)

Lemma count_strings_list elems :
  count_strings (JList elems) = 0%nat <->
  Forall (fun v => count_strings v = 0%nat) elems.
Proof.
  simpl. induction elems as [|v l IH]; simpl.
  - split; [constructor | reflexivity].
  - rewrite Forall_cons, <- IH. lia.
Qed.

Lemma count_strings_dict items :
  count_strings (JDict items) = 0%nat <->
  Forall (fun kv => count_strings (snd kv) = 0%nat) items.
Proof.
  simpl. induction items as [|kv l IH]; simpl.
  - split; [constructor | reflexivity].
  - rewrite Forall_cons, <- IH. lia.
Qed.

Lemma run_list_identity {A} (g : A -> json) (h : A -> pystr) l st :
  Forall (fun a => forall st, sanitize (g a) (h a) st = Ok (g a, st)) l ->
  run_list (fun a => sanitize (g a) (h a)) l st (List.map g l) st.
Proof.
  induction 1 as [|a l Ha _ IH]; simpl; [constructor|].
  econstructor; [apply Ha | exact IH].
Qed.

Lemma combine_fst_snd {A B} (l : list (A * B)) :
  combine (List.map fst l) (List.map snd l) = l.
Proof.
  induction l as [|[a b] l IH]; simpl; [reflexivity|]. rewrite IH.
  reflexivity.
Qed.

(** The walk of a value with no string leaf, while the stack lasts. *)
Lemma stringless_walk x pk st :
  wf_json x ->
  count_strings x = 0%nat ->
  sanitize x pk st = Ok (x, st).
Proof.
  revert pk st.
  induction x as [ | | | | s | elems IH | items IH ] using json_ind;
    intros pk st Hwf Hn; try reflexivity.
  - discriminate Hn.
  - apply wf_json_list in Hwf. apply count_strings_list in Hn.
    apply sanitize_list_Ok. exists elems. split; [|reflexivity].
    rewrite <- (List.map_id elems) at 2.
    apply (run_list_identity (fun v => v) (fun _ => pk)).
    rewrite Forall_forall in IH, Hwf, Hn |- *.
    intros v Hv st0. apply IH; auto.
  - apply wf_json_dict in Hwf as [Hnd Hwf].
    apply count_strings_dict in Hn.
    apply sanitize_dict_Ok; [exact Hnd|].
    exists (List.map snd items). split.
    + apply (run_list_identity snd fst).
      rewrite Forall_forall in IH, Hwf, Hn |- *.
      intros kv Hkv st0. apply IH; auto.
    + rewrite combine_fst_snd. reflexivity.
Qed.

(** X7.  A value with no string leaf (numbers, booleans, nulls and
    containers of them, such as token counts): whenever [sanitize] returns
    on it, it returns the value identical and leaves the maps untouched. *)
Theorem stringless_value_unchanged x pk st y st' :
  wf_json x ->
  count_strings x = 0%nat ->
  sanitize x pk st = Ok (y, st') ->
  y = x /\ st' = st.
Proof.
  intros Hwf Hn Hs. rewrite (stringless_walk x pk st Hwf Hn) in Hs.
  injection Hs as <- <-. split; reflexivity.
Qed.

(** ** How much a call stores *)

Lemma stores_ret {A} (a : A) : stores_at_most 0 (ret a).
Proof. intros st a' st' [= <- <-]. lia. Qed.

Lemma stores_bind {A B} (m : M A) (k : A -> M B) n1 n2 :
  stores_at_most n1 m -> (forall a, stores_at_most n2 (k a)) ->
  stores_at_most (n1 + n2) (bind m k).
Proof.
  intros Hm Hk st b st' (a & s & H1 & H2)%bind_Ok.
  specialize (Hm _ _ _ H1). specialize (Hk _ _ _ _ H2). lia.
Qed.

Lemma stores_more {A} (m : M A) n n' :
  stores_at_most n m -> (n <= n')%nat -> stores_at_most n' m.
Proof. intros Hm Hle st a st' H. specialize (Hm _ _ _ H). lia. Qed.

Lemma own_entry_ret v : stores_own_entry v (ret v).
Proof. intros st t st' [= <- <-]. left. reflexivity. Qed.

Lemma own_entry_path v : stores_own_entry v (sanitize_path v).
Proof.
  intros st t st'.
  unfold sanitize_path, bind, get, ret, lift, set_path, put. simpl.
  destruct (path_map st !! v) as [t0|] eqn:E.
  - intros [= <- <-]. left. reflexivity.
  - destruct (_hash v 10) as [h|]; simpl; [|discriminate].
    intros [= <- <-]. right. left. auto.
Qed.

Lemma own_entry_url v : stores_own_entry v (sanitize_url v).
Proof.
  intros st t st'. unfold sanitize_url. destruct (url_marker v).
  - unfold bind, get, ret, lift, set_url, put. simpl.
    destruct (url_map st !! v) as [t0|] eqn:E.
    + intros [= <- <-]. left. reflexivity.
    + destruct (_hash v 10) as [h|]; simpl; [|discriminate].
      intros [= <- <-]. right. right. auto.
  - intros [= <- <-]. left. reflexivity.
Qed.

Lemma own_entry_text k v : stores_own_entry v (sanitize_text k v).
Proof.
  intros st t st'. rewrite sanitize_text_eq.
  destruct (_hash v 8); simpl; [|discriminate].
  intros [= <- <-]. left. reflexivity.
Qed.

(** X8.  One classification stores at most one thing.  A call of the
    classifier on a string either leaves the state as it is, or adds exactly
    one entry to one of the two maps: the string itself, not stored before,
    with the token the call returns.  No other entry is added, changed or
    removed. *)
Theorem classifier_stores_own_entry key value :
  stores_own_entry value (sanitize_generic_string key value).
Proof.
  classifier_cases;
    auto using own_entry_ret, own_entry_path, own_entry_url, own_entry_text.
Qed.

Lemma own_entry_stores v m : stores_own_entry v m -> stores_at_most 1 m.
Proof.
  intros Hm st t st' H. unfold entries.
  destruct (Hm _ _ _ H) as [-> | [[Hn ->] | [Hn ->]]]; simpl.
  - lia.
  - rewrite map_size_insert_None by exact Hn. lia.
  - rewrite map_size_insert_None by exact Hn. lia.
Qed.

Lemma stores_classifier k v :
  stores_at_most 1 (sanitize_generic_string k v).
Proof.
  apply (own_entry_stores v). classifier_cases;
    auto using own_entry_ret, own_entry_path, own_entry_url, own_entry_text.
Qed.

Lemma stores_for_each {A B} (f : A -> M B) (w : A -> nat) l :
  Forall (fun a => stores_at_most (w a) (f a)) l ->
  stores_at_most (List.fold_right (fun a n => w a + n)%nat 0%nat l)
                 (for_each f l).
Proof.
  induction 1 as [|a l Ha _ IH]; [apply stores_ret|].
  rewrite for_each_cons. simpl. apply stores_bind; [assumption|].
  intros v'. eapply stores_more.
  - apply stores_bind; [exact IH | intros r; apply stores_ret].
  - lia.
Qed.

Lemma stores_for_items f (w : pystr * json -> nat) its out :
  Forall (fun kv => stores_at_most (w kv) (f (fst kv) (snd kv))) its ->
  stores_at_most (List.fold_right (fun kv n => w kv + n)%nat 0%nat its)
                 (for_items f its out).
Proof.
  intros H. revert out.
  induction H as [|[k v] rest Hkv _ IH]; intros out; [apply stores_ret|].
  rewrite for_items_cons. simpl. apply stores_bind; [assumption|].
  intros v'. apply IH.
Qed.

Lemma stores_sanitize x :
  forall pk, stores_at_most (count_strings x) (sanitize x pk).
Proof.
  induction x as [ | | | | s | elems IH | items IH ] using json_ind;
    intros pk; simpl; try apply stores_ret.
  - eapply stores_more.
    + apply stores_bind; [apply stores_classifier|].
      intros s'. apply stores_ret.
    + lia.
  - eapply stores_more.
    + apply stores_bind; [|intros out; apply stores_ret].
      apply (stores_for_each _ count_strings).
      eapply Forall_impl; [exact IH|]. auto.
    + lia.
  - eapply stores_more.
    + apply stores_bind; [|intros out; apply stores_ret].
      apply (stores_for_items _ (fun kv => count_strings (snd kv))).
      eapply Forall_impl; [exact IH|]. auto.
    + lia.
Qed.

(** X9.  Space.  Sanitizing a value never shrinks the maps and adds at most
    one token per string leaf of the value. *)
Theorem maps_grow_by_string_leaves x pk st y st' :
  sanitize x pk st = Ok (y, st') ->
  (entries st <= entries st' <= entries st + count_strings x)%nat.
Proof.
  intros Hs. split.
  - destruct (sanitize_sound _ _ _ _ _ Hs) as [(Hp & Hu & _) _].
    apply map_subseteq_size in Hp, Hu. unfold entries. lia.
  - apply (stores_sanitize _ _ _ _ _ Hs).
Qed.

(** ** What the shape tests let through *)

Lemma fullmatch_Void s : Re.fullmatch Re.Void s = false.
Proof. induction s; simpl; auto. Qed.

Lemma deriv_not_consumed r c :
  consumes r c = false -> Re.deriv c r = Re.Void.
Proof.
  induction r as [ | | p | r IHr s IHs | r IHr s IHs | r IHr ]; simpl;
    try reflexivity.
  - intros ->. reflexivity.
  - intros [Hr Hs]%orb_false_iff. rewrite IHr, IHs by assumption.
    destruct (Re.nullable r); reflexivity.
  - intros [Hr Hs]%orb_false_iff. rewrite IHr, IHs by assumption.
    reflexivity.
  - intros Hr. rewrite IHr by assumption. reflexivity.
Qed.

Lemma consumes_seq_ a b c :
  consumes (Re.seq_ a b) c = true ->
  consumes a c = true \/ consumes b c = true.
Proof.
  destruct a, b; simpl; rewrite ?orb_true_iff; intros H;
    try discriminate H; auto.
Qed.

Lemma consumes_alt_ a b c :
  consumes (Re.alt_ a b) c = true ->
  consumes a c = true \/ consumes b c = true.
Proof.
  destruct a, b; simpl; rewrite ?orb_true_iff; intros H;
    try discriminate H; auto.
Qed.

Lemma consumes_deriv r c c' :
  consumes (Re.deriv c r) c' = true -> consumes r c' = true.
Proof.
  induction r as [ | | p | r IHr s IHs | r IHr s IHs | r IHr ]; simpl;
    try discriminate.
  - destruct (p c); discriminate.
  - rewrite orb_true_iff. destruct (Re.nullable r).
    + intros [[H|H]%consumes_seq_|H]%consumes_alt_; auto.
    + intros [H|H]%consumes_seq_; auto.
  - rewrite orb_true_iff. intros [H|H]%consumes_alt_; auto.
  - intros [H|H]%consumes_seq_; auto.
Qed.

Lemma fullmatch_consumes s : forall r,
  Re.fullmatch r s = true -> Forall (fun c => consumes r c = true) s.
Proof.
  induction s as [|c s IH]; intros r H; constructor.
  - destruct (consumes r c) eqn:E; [reflexivity|].
    simpl in H. rewrite (deriv_not_consumed _ _ E), fullmatch_Void in H.
    discriminate.
  - simpl in H. apply IH in H.
    eapply Forall_impl; [exact H|]. intros c'. apply consumes_deriv.
Qed.

Ltac split_orb :=
  repeat match goal with
         | H : (_ || _) = true |- _ => apply orb_true_iff in H as [H|H]
         | H : false = true |- _ => discriminate H
         | H : N.eqb _ _ = true |- _ => apply N.eqb_eq in H; subst
         end.

Ltac pattern_classes H :=
  cbv [consumes ISO_TS_RE DATE_RE UUIDISH_RE ENUM_RE re_d Re.cat Re.rep
       Re.chr Re.opt Re.plus Re.at_least Re.dollar] in H;
  split_orb.

(** X10.  What the shape tests can let through in clear.  A value that
    matches the timestamp or the date pattern is made of decimal digits and
    the characters [-], [:], [.], [T], [Z] only; a value that matches the
    UUID pattern of hexadecimal digits and hyphens only; a value that passes
    the closing short-string test has at most 40 characters, all among
    letters, digits and [.], [_], [:], [/], [-].  The only other character
    that can occur is a line feed, which Python's [$] admits at the end. *)
Theorem shape_tests_alphabet v :
  (Re.match_ ISO_TS_RE v || Re.match_ DATE_RE v = true ->
     Forall (fun c => digit c = true \/ In c (lit "-:.TZ") \/ c = 10) v) /\
  (Re.match_ UUIDISH_RE v = true ->
     Forall (fun c => hex_ci c = true \/ c = 45 \/ c = 10) v) /\
  ((length v <=? 40)%nat && Re.match_ ENUM_RE v = true ->
     (length v <= 40)%nat /\
     Forall (fun c => enum_class c = true \/ c = 10) v).
Proof.
  split; [|split].
  - intros [H|H]%orb_true_iff; apply fullmatch_consumes in H;
      (eapply Forall_impl; [exact H|]); intros c Hc; pattern_classes Hc;
      first [ left; assumption
            | right; right; reflexivity
            | right; left; simpl; auto 10 ].
  - intros H. apply fullmatch_consumes in H.
    eapply Forall_impl; [exact H|]. intros c Hc. pattern_classes Hc;
      first [ left; assumption | right; right; reflexivity
            | right; left; reflexivity ].
  - intros [Hl H]%andb_true_iff. split; [apply Nat.leb_le, Hl|].
    apply fullmatch_consumes in H.
    eapply Forall_impl; [exact H|]. intros c Hc. pattern_classes Hc;
      first [ left; assumption | right; reflexivity ].
Qed.

(** ** The transcoder *)

Lemma lstrip_nil s : lstrip s = [] <-> forallb is_space s = true.
Proof.
  induction s as [|c s IH]; simpl; [tauto|].
  destruct (is_space c); simpl; [exact IH|]. split; discriminate.
Qed.

Lemma lstrip_head s c r : lstrip s = c :: r -> is_space c = false.
Proof.
  induction s as [|a s IH]; simpl; [discriminate|].
  destruct (is_space a) eqn:E; [exact IH|]. intros [= -> _]. exact E.
Qed.

Lemma lstrip_suffix s : exists pre, s = pre ++ lstrip s.
Proof.
  induction s as [|c s [pre IH]]; simpl; [exists []; reflexivity|].
  destruct (is_space c).
  - exists (c :: pre). simpl. f_equal. exact IH.
  - exists []. reflexivity.
Qed.

Lemma forallb_rev {A} (f : A -> bool) l :
  forallb f (rev l) = forallb f l.
Proof.
  induction l as [|a l IH]; simpl; [reflexivity|].
  rewrite forallb_app, IH. simpl. rewrite andb_true_r. apply andb_comm.
Qed.

Lemma strip_nil s : strip s = [] <-> blank s = true.
Proof.
  unfold strip, rstrip, blank. split.
  - intros H. apply (f_equal (@rev N)) in H. rewrite rev_involutive in H.
    simpl in H. apply lstrip_nil in H. rewrite forallb_rev in H.
    destruct (lstrip s) as [|c r] eqn:E; [apply lstrip_nil, E|].
    apply lstrip_head in E. simpl in H. rewrite E in H. discriminate.
  - intros H. apply lstrip_nil in H. rewrite H. reflexivity.
Qed.

Lemma rstrip_prefix s : exists tail, s = rstrip s ++ tail.
Proof.
  unfold rstrip. destruct (lstrip_suffix (rev s)) as [pre H].
  exists (rev pre). rewrite <- rev_app_distr, <- H, rev_involutive.
  reflexivity.
Qed.

Lemma utf8_encode_app a b :
  utf8_encode (a ++ b) <> None -> utf8_encode a <> None.
Proof.
  induction a as [|c a IH]; simpl; [discriminate|].
  destruct (utf8_char c); [|intros H; exact H].
  destruct (utf8_encode (a ++ b)) eqn:E;
    [|intros H; destruct (H eq_refl)].
  intros _. destruct (utf8_encode a); [discriminate|].
  exfalso. apply IH; [discriminate | reflexivity].
Qed.

Lemma utf8_encode_rstrip s :
  utf8_encode s <> None -> utf8_encode (rstrip s) <> None.
Proof.
  destruct (rstrip_prefix s) as [tail H]. rewrite H at 1.
  apply utf8_encode_app.
Qed.

Lemma line_written_weaken s0 s1 s0' s1' line w :
  reachable_from s0' s0 -> reachable_from s1 s1' ->
  line_written s0 s1 line w -> line_written s0' s1' line w.
Proof.
  intros R0 R1 (sa & sb & Ra & Rb & H). exists sa, sb.
  split; [eapply reachable_from_trans; eassumption|].
  split; [eapply reachable_from_trans; eassumption | exact H].
Qed.

Lemma line_written_reach s0 s1 line w :
  line_written s0 s1 line w -> reachable_from s0 s1.
Proof.
  intros (sa & sb & Ra & Rb & H).
  eapply reachable_from_trans; [exact Ra|].
  eapply reachable_from_trans; [|exact Rb].
  destruct (json_loads line) as [obj| |e].
  - destruct H as (items & y & _ & Hs & _). eapply sanitize_reach, Hs.
  - destruct H as (raw & Hs & _).
    apply (reach_call sa (CallText (lit "raw") (rstrip line)) sa sb);
      [constructor|]. simpl. rewrite Hs. reflexivity.
  - destruct H.
Qed.

(** What one turn of the loop does when it returns. *)
Lemma process_line_Returns line t o t' o' :
  process_line line t o = Returns (t', o') ->
  (blank line = true /\ t' = t /\ o' = o) \/
  (blank line = false /\
   line_count_total t' = line_count_total t + 1 /\
   type_counts t' = bump (bucket line) (type_counts t) /\
   exists w, o' = o ++ [w] /\
             line_written (sanitizer t) (sanitizer t') line w).
Proof.
  unfold process_line, bucket.
  destruct (strip line) as [|c r] eqn:Es.
  - intros [= <- <-]. left. split; [apply strip_nil, Es | auto].
  - assert (Hb : blank line = false).
    { destruct (blank line) eqn:E; [|reflexivity].
      apply strip_nil in E. congruence. }
    intros H. right. split; [exact Hb|].
    unfold line_written.
    destruct (json_loads line) as [[ | | | | | |items]| |e];
      try discriminate H.
    + destruct (stack_admits (JDict items)); [|discriminate H].
      destruct (sanitize (JDict items) [] (sanitizer t))
        as [[y s]|] eqn:Hs; [|discriminate H].
      injection H as <- <-. simpl.
      split; [reflexivity|]. split.
      { destruct (dict_get (lit "type") items) as [[ | | | | | | ]|];
          reflexivity. }
      exists (Line y true). split; [reflexivity|].
      exists (sanitizer t), s.
      split; [constructor|]. split; [constructor|]. eauto.
    + destruct (sanitize_text (lit "raw") (rstrip line) (sanitizer t))
        as [[raw s]|] eqn:Hs; [|discriminate H].
      injection H as <- <-. simpl.
      split; [reflexivity|]. split; [reflexivity|].
      exists (Line (malformed_record raw) false). split; [reflexivity|].
      exists (sanitizer t), s.
      split; [constructor|]. split; [constructor|]. eauto.
Qed.

(** The loop over one file, when it returns: the lines that are not blank
    are written one for one, in order, and tallied. *)
Lemma process_lines_Returns lines : forall t o t' o',
  process_lines lines t o = Returns (t', o') ->
  reachable_from (sanitizer t) (sanitizer t') /\
  line_count_total t' =
    line_count_total t + N.of_nat (length (nonblank lines)) /\
  (forall b, default 0 (type_counts t' !! b) =
             default 0 (type_counts t !! b) + N.of_nat (tally b lines)) /\
  exists ws,
    o' = o ++ ws /\
    Forall2 (line_written (sanitizer t) (sanitizer t')) (nonblank lines) ws.
Proof.
  induction lines as [|line rest IH]; intros t o t' o'; simpl.
  - intros [= <- <-]. split; [constructor|].
    split; [simpl; lia|]. split; [intros b; unfold tally; simpl; lia|].
    exists []. rewrite app_nil_r. split; [reflexivity | constructor].
  - destruct (process_line line t o) as [[t1 o1]|] eqn:H1; [|discriminate].
    intros H2. destruct (IH _ _ _ _ H2) as (Rr & Hn & Hc & ws & -> & Hws).
    apply process_line_Returns in H1
      as [(Hb & -> & ->) | (Hb & Hn1 & Hc1 & w & -> & Hw)].
    + unfold nonblank, tally, nonblank in *. simpl. rewrite Hb. simpl.
      split; [exact Rr|]. split; [exact Hn|]. split; [exact Hc|].
      exists ws. auto.
    + pose proof (line_written_reach _ _ _ _ Hw) as R1.
      split; [eapply reachable_from_trans; eassumption|].
      unfold nonblank, tally, nonblank in *. simpl. rewrite Hb. simpl.
      split; [rewrite Hn, Hn1; lia|]. split.
      * intros b. rewrite Hc, Hc1. unfold bump, pystr_eqb.
        case_bool_decide as Eb.
        -- subst b. rewrite lookup_insert_eq. simpl. lia.
        -- rewrite lookup_insert_ne by exact Eb. lia.
      * exists (w :: ws). rewrite <- app_assoc. split; [reflexivity|].
        constructor.
        -- eapply line_written_weaken; [constructor | exact Rr | exact Hw].
        -- eapply Forall2_impl; [exact Hws|]. intros l0 w0.
           apply line_written_weaken; [exact R1 | constructor].
Qed.

Lemma nonblank_app l1 l2 : nonblank (l1 ++ l2) = nonblank l1 ++ nonblank l2.
Proof. unfold nonblank. apply List.filter_app. Qed.

Lemma tally_app b l1 l2 : tally b (l1 ++ l2) = (tally b l1 + tally b l2)%nat.
Proof.
  unfold tally. rewrite nonblank_app, List.filter_app, length_app.
  reflexivity.
Qed.

(** The loop over all files, when it returns. *)
Lemma process_files_Returns files : forall t t' outs,
  process_files files t = Returns (t', outs) ->
  reachable_from (sanitizer t) (sanitizer t') /\
  line_count_total t' =
    line_count_total t + N.of_nat (length (nonblank (concat files))) /\
  (forall b, default 0 (type_counts t' !! b) =
             default 0 (type_counts t !! b)
             + N.of_nat (tally b (concat files))) /\
  Forall2 (fun lines ws =>
             Forall2 (line_written (sanitizer t) (sanitizer t'))
                     (nonblank lines) ws) files outs.
Proof.
  induction files as [|lines rest IH]; intros t t' outs; simpl.
  - intros [= <- <-]. split; [constructor|]. split; [simpl; lia|].
    split; [intros b; unfold tally; simpl; lia | constructor].
  - destruct (process_lines lines t []) as [[t1 o1]|] eqn:H1;
      [|discriminate].
    destruct (process_files rest t1) as [[t2 os]|] eqn:H2; [|discriminate].
    intros [= <- <-].
    apply process_lines_Returns in H1 as (R1 & N1 & C1 & ws & Ho & W1).
    simpl in Ho. subst o1.
    destruct (IH _ _ _ H2) as (R2 & N2 & C2 & W2).
    split; [eapply reachable_from_trans; eassumption|].
    split; [rewrite N2, N1, nonblank_app, length_app; lia|].
    split; [intros b; rewrite C2, C1, tally_app; lia|].
    constructor.
    + eapply Forall2_impl; [exact W1|]. intros l0 w0.
      apply line_written_weaken; [constructor | exact R2].
    + eapply Forall2_impl; [exact W2|]. intros ls0 ws0 H.
      eapply Forall2_impl; [exact H|]. intros l0 w0.
      apply line_written_weaken; [exact R1 | constructor].
Qed.

Lemma written_flat (R : pystr -> written -> Prop) files outs :
  Forall2 (fun lines ws => Forall2 R (nonblank lines) ws) files outs ->
  Forall2 R (nonblank (concat files)) (concat outs).
Proof.
  induction 1 as [|lines ws files outs H _ IH]; simpl; [constructor|].
  rewrite nonblank_app. apply Forall2_app; assumption.
Qed.

Lemma Forall2_combine_In {A B} (R : A -> B -> Prop) l ws a w :
  Forall2 R l ws -> In (a, w) (combine l ws) -> R a w.
Proof.
  induction 1 as [|x y l ws Hxy _ IH]; simpl; [tauto|].
  intros [[= <- <-] | H]; auto.
Qed.

(** X11.  One document per line.  When the run returns, every input file
    has its own output, each output holds exactly as many documents as the
    file has lines that are not blank, and [line_count_total] is the number
    of such lines over all files. *)
Theorem one_document_per_line files t outs :
  transcode files = Returns (t, outs) ->
  Forall2 (fun lines ws => length ws = length (nonblank lines)) files outs /\
  line_count_total t = N.of_nat (length (nonblank (concat files))).
Proof.
  intros (_ & Hn & _ & Hw)%process_files_Returns. split.
  - eapply Forall2_impl; [exact Hw|]. intros lines ws H. cbv beta in H.
    symmetry. eapply Forall2_length, H.
  - rewrite Hn. simpl. lia.
Qed.

Lemma total_count_bump k counts :
  total_count (bump k counts) = total_count counts + 1.
Proof.
  unfold total_count, bump.
  assert (Hcomm : forall z1 z2 y : N, z1 + (z2 + y) = z2 + (z1 + y))
    by (intros; lia).
  destruct (counts !! k) as [n|] eqn:E; simpl.
  - rewrite <- insert_delete_eq.
    rewrite map_fold_insert_L; [|intros; apply Hcomm|apply lookup_delete_eq].
    rewrite (map_fold_delete_L _ _ k n counts);
      [lia | intros; apply Hcomm | exact E].
  - rewrite map_fold_insert_L; [lia | intros; apply Hcomm | exact E].
Qed.

Lemma process_lines_total lines : forall t o t' o',
  process_lines lines t o = Returns (t', o') ->
  total_count (type_counts t') + line_count_total t =
  total_count (type_counts t) + line_count_total t'.
Proof.
  induction lines as [|line rest IH]; intros t o t' o'; simpl.
  - intros [= <- <-]. reflexivity.
  - destruct (process_line line t o) as [[t1 o1]|] eqn:H1; [|discriminate].
    intros H2. specialize (IH _ _ _ _ H2).
    apply process_line_Returns in H1
      as [(_ & -> & ->) | (_ & Hn1 & Hc1 & _)]; [exact IH|].
    rewrite Hc1, total_count_bump in IH. lia.
Qed.

Lemma process_files_total files : forall t t' outs,
  process_files files t = Returns (t', outs) ->
  total_count (type_counts t') + line_count_total t =
  total_count (type_counts t) + line_count_total t'.
Proof.
  induction files as [|lines rest IH]; intros t t' outs; simpl.
  - intros [= <- <-]. reflexivity.
  - destruct (process_lines lines t []) as [[t1 o1]|] eqn:H1;
      [|discriminate].
    destruct (process_files rest t1) as [[t2 os]|] eqn:H2; [|discriminate].
    intros [= <- <-]. apply process_lines_total in H1.
    apply IH in H2. lia.
Qed.

(** X12.  The tally.  When the run returns, the counter holds, for every
    bucket, the number of lines (not blank, over all files) that fall in it:
    the line's [type] when the line is an object with a string [type],
    ["<missing>"] when it is an object without one, ["malformed_line"] when
    it is not JSON.  The counts add up to [line_count_total]. *)
Theorem type_counts_tally files t outs :
  transcode files = Returns (t, outs) ->
  (forall b, default 0 (type_counts t !! b) =
             N.of_nat (tally b (concat files))) /\
  total_count (type_counts t) = line_count_total t.
Proof.
  intros H. split.
  - apply process_files_Returns in H as (_ & _ & Hc & _).
    intros b. rewrite Hc. simpl. rewrite lookup_empty. simpl. lia.
  - apply process_files_total in H. simpl in H.
    unfold total_count in H at 2. rewrite map_fold_empty in H. lia.
Qed.

(** X13.  A line that is not JSON does not stop the run.  For a line that
    is not blank, that [json.loads] rejects with [JSONDecodeError] and that
    is UTF-8 text (as every line read from the file is), the loop writes
    exactly one document,
    [{"type": "malformed_line", "raw": "[REDACTED_RAW len=<n> sha=<8 hex
    characters>]"}] with default separators, where <n> is the length of the
    line without its trailing whitespace; it counts the line once, under
    ["malformed_line"], and leaves the sanitizer as it is. *)
Theorem malformed_line_survives line t o :
  blank line = false ->
  json_loads line = JSONDecodeError ->
  utf8_encode line <> None ->
  exists bytes,
    utf8_encode (rstrip line) = Some bytes /\
    process_line line t o =
    Returns
      (mkTranscoder (sanitizer t) (line_count_total t + 1)
                    (bump (lit "malformed_line") (type_counts t)),
       o ++ [Line (malformed_record
                     (lit "[REDACTED_RAW len="
                        ++ str_of_N (N.of_nat (length (rstrip line)))
                        ++ lit " sha=" ++ firstn 8 (SHA256.hexdigest bytes)
                        ++ lit "]"))
                  false]).
Proof.
  intros Hb Hj He. apply utf8_encode_rstrip in He.
  destruct (utf8_encode (rstrip line)) as [bytes|] eqn:E; [|congruence].
  exists bytes. split; [reflexivity|].
  unfold process_line. destruct (strip line) as [|c r] eqn:Es.
  - apply strip_nil in Es. congruence.
  - rewrite Hj, sanitize_text_eq. unfold _hash. rewrite E. reflexivity.
Qed.

Lemma process_lines_app l1 l2 t o :
  process_lines (l1 ++ l2) t o =
  match process_lines l1 t o with
  | Returns (t', o') => process_lines l2 t' o'
  | Raises e => Raises e
  end.
Proof.
  revert t o. induction l1 as [|line l1 IH]; intros t o; simpl;
    [reflexivity|].
  destruct (process_line line t o) as [[t1 o1]|]; [apply IH | reflexivity].
Qed.

(** X14.  A JSON line that is not an object stops the run.  If a file holds,
    after lines the loop got through, a line that parses to a list, a
    string, a number, a boolean or null, the loop raises [AttributeError]
    there (from [obj.get]): nothing is written for that line or any later
    one. *)
Theorem non_object_line_aborts before line after obj t o t1 o1 :
  process_lines before t o = Returns (t1, o1) ->
  blank line = false ->
  json_loads line = Parsed obj ->
  (forall items, obj <> JDict items) ->
  process_lines (before ++ line :: after) t o = Raises AttributeError.
Proof.
  intros Hbefore Hb Hj Hobj. rewrite process_lines_app, Hbefore. simpl.
  unfold process_line. destruct (strip line) as [|c r] eqn:Es.
  - apply strip_nil in Es. congruence.
  - rewrite Hj. destruct obj; try reflexivity.
    exfalso. eapply Hobj. reflexivity.
Qed.

Lemma process_line_passable line t o :
  passable line -> exists t' o', process_line line t o = Returns (t', o').
Proof.
  intros Hp. unfold process_line.
  destruct (strip line) as [|c r] eqn:Es; [eauto|].
  destruct Hp as [Hb | Hp].
  - apply strip_nil in Hb. congruence.
  - destruct (json_loads line) as [obj| |e].
    + destruct Hp as ([items ->] & He & ->).
      destruct (sanitize_total _ He [] (sanitizer t)) as (y & s & Hs).
      rewrite Hs. destruct (dict_get (lit "type") items) as [[]|]; eauto.
    + apply utf8_encode_rstrip in Hp.
      destruct (sanitize_text_total (lit "raw") _ Hp (sanitizer t))
        as (raw & s & Hs).
      rewrite Hs. eauto.
    + destruct Hp.
Qed.

Lemma process_lines_passable lines : forall t o,
  Forall passable lines ->
  exists t' o', process_lines lines t o = Returns (t', o').
Proof.
  induction lines as [|line rest IH]; intros t o Hall; simpl; [eauto|].
  apply Forall_cons in Hall as [Hl Hrest].
  destruct (process_line_passable line t o Hl) as (t1 & o1 & ->).
  apply IH, Hrest.
Qed.

(** X15.  When the run completes.  If every line of every file is blank, or
    is rejected by [json.loads] with [JSONDecodeError] and is UTF-8 text, or
    parses to an object whose strings all have a UTF-8 encoding and whose
    nesting the interpreter's stack admits, the run returns: no line makes
    it raise. *)
Theorem passable_lines_complete files :
  Forall (Forall passable) files ->
  exists t outs, transcode files = Returns (t, outs).
Proof.
  unfold transcode. generalize (mkTranscoder init 0 ∅).
  induction files as [|lines rest IH]; intros t Hall; simpl; [eauto|].
  apply Forall_cons in Hall as [Hl Hrest].
  destruct (process_lines_passable lines t [] Hl) as (t1 & o1 & ->).
  destruct (IH t1 Hrest) as (t2 & outs & ->). eauto.
Qed.

Lemma blank_line_skipped line t o :
  blank line = true -> process_line line t o = Returns (t, o).
Proof.
  intros Hb. apply strip_nil in Hb. unfold process_line. rewrite Hb.
  reflexivity.
Qed.

(** X16.  Blank lines change nothing.  Lines made of whitespace only (the
    empty line included) can be removed from a file without changing what
    the loop writes, counts or stores, or whether it raises. *)
Theorem blank_lines_ignored lines t o :
  process_lines lines t o = process_lines (nonblank lines) t o.
Proof.
  revert t o. induction lines as [|line rest IH]; intros t o;
    [reflexivity|].
  unfold nonblank. simpl. destruct (blank line) eqn:Hb; simpl.
  - rewrite (blank_line_skipped _ _ _ Hb). apply IH.
  - destruct (process_line line t o) as [[t1 o1]|]; [apply IH|reflexivity].
Qed.

Section ParserOfDicts.

(** [json.loads] builds Python dicts: no key occurs twice. *)
Hypothesis loads_wf : forall s x, json_loads s = Parsed x -> wf_json x.

(** X17.  The output mirrors the input.  When the run returns, the
    documents of each output file answer the lines of its input file that
    are not blank, one for one and in order: for a line that is not JSON,
    the [malformed_line] document with the redaction of the line, written
    with default separators; for a JSON object, a document of the same shape
    as the object (same keys in the same order, same list lengths, same
    numbers, booleans and nulls), written with compact separators. *)
Theorem output_mirrors_input files t outs :
  transcode files = Returns (t, outs) ->
  Forall2
    (fun lines ws =>
       Forall2
         (fun line w =>
            match json_loads line with
            | JSONDecodeError =>
                compact w = false /\
                exists bytes,
                  utf8_encode (rstrip line) = Some bytes /\
                  doc w =
                  malformed_record
                    (lit "[REDACTED_RAW len="
                       ++ str_of_N (N.of_nat (length (rstrip line)))
                       ++ lit " sha=" ++ firstn 8 (SHA256.hexdigest bytes)
                       ++ lit "]")
            | Parsed obj => compact w = true /\ shape (doc w) = shape obj
            | LoadsRaises _ => False
            end)
         (nonblank lines) ws)
    files outs.
Proof.
  intros (_ & _ & _ & Hw)%process_files_Returns.
  eapply Forall2_impl; [exact Hw|]. intros lines ws H. cbv beta in H.
  eapply Forall2_impl; [exact H|]. intros line w (sa & sb & _ & _ & Hl).
  destruct (json_loads line) as [obj| |e] eqn:Hj; [| |exact Hl].
  - destruct Hl as (items & y & -> & Hs & ->). split; [reflexivity|].
    apply (sanitize_shape_Ok _ _ _ _ _ (loads_wf _ _ Hj) Hs).
  - destruct Hl as (raw & Hs & ->). simpl. split; [reflexivity|].
    rewrite sanitize_text_eq in Hs. unfold _hash in Hs.
    destruct (utf8_encode (rstrip line)) as [bytes|]; [|discriminate].
    simpl in Hs. injection Hs as <- _. exists bytes. auto.
Qed.

(** X18.  One token per value over the whole run.  Take any two lines of
    the run, in the same file or in different files, that parse to objects
    holding the same string under the same key in force: the two documents
    written for them hold the same replacement at those places. *)
Theorem same_value_same_replacement_in_run
    files t outs l1 w1 x1 p1 l2 w2 x2 p2 v :
  transcode files = Returns (t, outs) ->
  In (l1, w1) (combine (nonblank (concat files)) (concat outs)) ->
  In (l2, w2) (combine (nonblank (concat files)) (concat outs)) ->
  json_loads l1 = Parsed x1 ->
  json_loads l2 = Parsed x2 ->
  at_path p1 x1 = Some (JStr v) ->
  at_path p2 x2 = Some (JStr v) ->
  context_key [] p1 = context_key [] p2 ->
  exists r,
    classify (context_key [] p1) v = Ok r /\
    at_path p1 (doc w1) = Some (JStr r) /\
    at_path p2 (doc w2) = Some (JStr r).
Proof.
  intros (_ & _ & _ & Hw%written_flat)%process_files_Returns
         In1 In2 J1 J2 P1 P2 Hctx.
  simpl in Hw.
  pose proof (Forall2_combine_In _ _ _ _ _ Hw In1)
    as (sa1 & sb1 & Ra1 & _ & H1).
  pose proof (Forall2_combine_In _ _ _ _ _ Hw In2)
    as (sa2 & sb2 & Ra2 & _ & H2).
  rewrite J1 in H1. rewrite J2 in H2.
  destruct H1 as (i1 & y1 & -> & S1 & ->).
  destruct H2 as (i2 & y2 & -> & S2 & ->).
  destruct (leaf_replaced _ _ _ _ _ _ _ Ra1 (loads_wf _ _ J1) S1 P1)
    as (r1 & C1 & Y1).
  destruct (leaf_replaced _ _ _ _ _ _ _ Ra2 (loads_wf _ _ J2) S2 P2)
    as (r2 & C2 & Y2).
  rewrite <- Hctx, C1 in C2. injection C2 as <-.
  exists r1. auto.
Qed.

End ParserOfDicts.

End WithCharacterDatabase.

(** * Concrete runs

    The runs below use records whose text is ASCII, so the character database
    is never consulted past its ASCII part; it is instantiated with
    [ascii_only_casemap] and [ascii_only_decimal]. *)

Abbreviation sanitize0 :=
  (sanitize ascii_only_casemap ascii_only_casemap ascii_only_decimal).
Abbreviation classify0 :=
  (sanitize_generic_string ascii_only_casemap ascii_only_casemap
                           ascii_only_decimal).
Abbreviation reachable0 :=
  (reachable ascii_only_casemap ascii_only_casemap ascii_only_decimal).
Abbreviation reachable_from0 :=
  (reachable_from ascii_only_casemap ascii_only_casemap ascii_only_decimal).

Ltac distinct_keys :=
  match goal with
  | |- NoDup ?l => apply (bool_decide_unpack (NoDup l)); vm_compute; exact I
  end.

Lemma wf_user_message_record : wf_json user_message_record.
Proof. simpl. split; [distinct_keys | tauto]. Qed.

Lemma wf_second_record : wf_json second_record.
Proof. simpl. repeat split; distinct_keys. Qed.

Lemma second_record_run :
  sanitize0 second_record [] after_user_message =
  Ok (JDict [ (lit "type", JStr (lit "tool_call"));
              (lit "payload",
               JDict [ (lit "cwd", JStr (lit "/redacted/path/2711bd02af")) ]) ],
      after_user_message).
Proof. vm_compute. reflexivity. Qed.

Lemma after_user_message_reachable : reachable0 after_user_message.
Proof.
  apply (reach_call _ _ _ init (CallSanitize user_message_record []) init);
    [apply reach_here|].
  unfold exec. rewrite user_message_run. reflexivity.
Qed.

(** C1, as stated, fails: no output of the scenario has a [content] of the
    form ["[REDACTED_CONTENT len=25 sha=...]"]. *)
Lemma user_message_len_25_refuted :
  ~ exists y st' sha,
      sanitize0 user_message_record [] init = Ok (y, st') /\
      at_path [Key (lit "content")] y =
        Some (JStr (lit "[REDACTED_CONTENT len=25 sha=" ++ sha ++ lit "]")).
Proof.
  intros (y & st' & sha & Hrun & Hc).
  rewrite user_message_run in Hrun. injection Hrun as <- _.
  vm_compute in Hc. discriminate Hc.
Qed.

(** C3, as stated, fails on a record with a lone surrogate: [sanitize]
    raises and returns no value at all. *)
Lemma sanitize_raises_on_lone_surrogate :
  wf_json surrogate_record /\
  ~ exists y st',
      sanitize0 surrogate_record [] init = Ok (y, st') /\
      shape y = shape surrogate_record.
Proof.
  split.
  - simpl. split; [distinct_keys | tauto].
  - intros (y & st' & Hrun & _). vm_compute in Hrun. discriminate Hrun.
Qed.

Lemma sanitize_preserves_shape_witness :
  wf_json user_message_record /\
  sanitize0 user_message_record [] init =
    Ok (JDict [ (lit "type", JStr (lit "user_message"));
                (lit "cwd", JStr (lit "/redacted/path/2711bd02af"));
                (lit "content",
                 JStr (lit "[REDACTED_CONTENT len=24 sha=ea740f7e]")) ],
        after_user_message) /\
  shape (JDict [ (lit "type", JStr (lit "user_message"));
                 (lit "cwd", JStr (lit "/redacted/path/2711bd02af"));
                 (lit "content",
                  JStr (lit "[REDACTED_CONTENT len=24 sha=ea740f7e]")) ]) =
  shape user_message_record.
Proof.
  split; [exact wf_user_message_record|].
  split; [apply user_message_run|].
  apply (sanitize_preserves_shape ascii_only_casemap ascii_only_casemap
           ascii_only_decimal user_message_record [] init _
           after_user_message wf_user_message_record).
  apply user_message_run.
Defined.

Lemma repeated_value_same_token_witness :
  key_in (lit "cwd") PATHISH_KEYS = true /\
  sanitize_path (lit "/Users/alice/proj") after_user_message =
    Ok (lit "/redacted/path/2711bd02af", after_user_message) /\
  exists t,
    at_path ([] ++ [Key (lit "cwd")])
      (JDict [ (lit "type", JStr (lit "user_message"));
               (lit "cwd", JStr (lit "/redacted/path/2711bd02af"));
               (lit "content",
                JStr (lit "[REDACTED_CONTENT len=24 sha=ea740f7e]")) ]) =
      Some (JStr t) /\
    at_path ([Key (lit "payload")] ++ [Key (lit "cwd")])
      (JDict [ (lit "type", JStr (lit "tool_call"));
               (lit "payload",
                JDict [ (lit "cwd",
                         JStr (lit "/redacted/path/2711bd02af")) ]) ]) =
      Some (JStr t).
Proof.
  destruct (repeated_value_same_token ascii_only_casemap ascii_only_casemap
              ascii_only_decimal) as (Hpath & _ & Hrec).
  split; [reflexivity | split].
  - apply (Hpath (lit "/Users/alice/proj") init _ after_user_message).
    + vm_compute. reflexivity.
    + apply reach_here.
  - apply (Hrec (lit "cwd") (lit "/Users/alice/proj")
                user_message_record [] [] init _ after_user_message
                second_record [Key (lit "payload")] [] after_user_message
                _ after_user_message).
    + reflexivity.
    + exact wf_user_message_record.
    + exact wf_second_record.
    + reflexivity.
    + reflexivity.
    + apply user_message_run.
    + apply reach_here.
    + apply second_record_run.
Defined.

Lemma verbatim_keys_unchanged_witness :
  key_in (lit "type") VERBATIM_KEYS = true /\
  (forall v st, classify0 (lit "type") v st = Ok (v, st)) /\
  (forall x pk st y st' p v,
      wf_json x ->
      sanitize0 x pk st = Ok (y, st') ->
      at_path (p ++ [Key (lit "type")]) x = Some (JStr v) ->
      at_path (p ++ [Key (lit "type")]) y = Some (JStr v)).
Proof.
  split; [reflexivity|].
  apply (verbatim_keys_unchanged ascii_only_casemap ascii_only_casemap
           ascii_only_decimal (lit "type")).
  reflexivity.
Defined.

(** C6, as stated, fails for the empty key, whose placeholder reads
    [REDACTED_TEXT] and not [REDACTED_]; and a value with a lone surrogate
    gets no placeholder. *)
Lemma redaction_empty_key_refuted :
  ~ (forall k v st, exists D,
        sanitize_text ascii_only_casemap k v st =
        Ok (lit "[REDACTED_" ++ upper ascii_only_casemap k ++ lit " len="
              ++ str_of_N (N.of_nat (length v)) ++ lit " sha=" ++ D
              ++ lit "]", st)) /\
  sanitize_text ascii_only_casemap [] (lit "abc") init =
    Ok (lit "[REDACTED_TEXT len=3 sha=ba7816bf]", init) /\
  sanitize_text ascii_only_casemap (lit "content") lone_surrogate init =
    UnicodeEncodeError.
Proof.
  split; [|split].
  - intros H. destruct (H [] (lit "abc") init) as [D HD].
    vm_compute in HD. discriminate HD.
  - vm_compute. reflexivity.
  - vm_compute. reflexivity.
Qed.

(** C7, as stated, fails: a value that begins with ["https://"] and holds a
    lone surrogate makes [sanitize_url] raise. *)
Lemma sanitize_url_raises :
  url_marker (lit "https://" ++ lone_surrogate) = true /\
  sanitize_url (lit "https://" ++ lone_surrogate) init = UnicodeEncodeError.
Proof. vm_compute. split; reflexivity. Qed.

Lemma sanitize_url_cases_witness :
  reachable0 after_user_message /\
  url_marker (lit "https://example.com/repo") = true /\
  utf8_encode (lit "https://example.com/repo") <> None /\
  exists h st',
    sanitize_url (lit "https://example.com/repo") after_user_message =
      Ok (lit "redacted://url/" ++ h, st') /\
    _hash (lit "https://example.com/repo") 10 = Ok h /\
    length h = 10%nat /\ Forall (fun c => is_hex c = true) h /\
    lit "redacted://url/" ++ h <> lit "https://example.com/repo".
Proof.
  split; [exact after_user_message_reachable|].
  split; [reflexivity|]. split; [discriminate|].
  apply (sanitize_url_cases ascii_only_casemap ascii_only_casemap
           ascii_only_decimal (lit "https://example.com/repo")
           after_user_message after_user_message_reachable).
  - reflexivity.
  - discriminate.
Defined.

Lemma timestamps_preserved_witness :
  key_in (lit "timestamp") PATHISH_KEYS = false /\
  key_in (lit "timestamp") URLISH_KEYS = false /\
  Re.match_ (ISO_TS_RE ascii_only_decimal) (lit "2026-02-23T10:00:00Z")
  || Re.match_ (DATE_RE ascii_only_decimal) (lit "2026-02-23T10:00:00Z")
  = true /\
  classify0 (lit "timestamp") (lit "2026-02-23T10:00:00Z") init =
    Ok (lit "2026-02-23T10:00:00Z", init).
Proof.
  destruct (timestamps_preserved ascii_only_casemap ascii_only_casemap
              ascii_only_decimal) as [H _].
  split; [reflexivity|]. split; [reflexivity|]. split; [reflexivity|].
  apply H; reflexivity.
Defined.

Lemma sanitize_two_runs_witness :
  reachable0 init /\ reachable0 after_user_message /\
  value_of (sanitize0 user_message_record [] init) =
  value_of (sanitize0 user_message_record [] after_user_message).
Proof.
  split; [apply reach_here|]. split; [exact after_user_message_reachable|].
  apply sanitize_two_runs;
    [apply reach_here | exact after_user_message_reachable].
Defined.

(** C10, as stated, fails on a lone surrogate: [sanitize_path] raises in the
    fresh state. *)
Lemma sanitize_path_raises :
  reachable0 init /\
  ~ exists t st', sanitize_path lone_surrogate init = Ok (t, st').
Proof.
  split; [apply reach_here|].
  intros (t & st' & H). vm_compute in H. discriminate H.
Qed.

Lemma path_tokens_fixed_witness :
  reachable0 after_user_message /\
  value_of (sanitize_path (lit "abc") after_user_message) =
    Ok (lit "/redacted/path/ba7816bf8f") /\
  path_map after_user_message !! lit "/Users/alice/proj" =
    Some (lit "/redacted/path/2711bd02af").
Proof.
  split; [exact after_user_message_reachable|].
  destruct (path_tokens_fixed ascii_only_casemap ascii_only_casemap
              ascii_only_decimal after_user_message
              after_user_message_reachable) as (Hval & _ & _).
  split; [|vm_compute; reflexivity].
  rewrite Hval. vm_compute. reflexivity.
Defined.

(** * Concrete runs of the transcoder and further checks *)

Arguments Returns {A} a.
Arguments Raises {A} e.

Abbreviation classify_0 :=
  (classify ascii_only_casemap ascii_only_casemap ascii_only_decimal).
Abbreviation transcode0 :=
  (transcode ascii_only_casemap ascii_only_casemap ascii_only_decimal
             ascii_only_space sample_loads sample_stack).
Abbreviation process_lines0 :=
  (process_lines ascii_only_casemap ascii_only_casemap ascii_only_decimal
                 ascii_only_space sample_loads sample_stack).
Abbreviation process_line0 :=
  (process_line ascii_only_casemap ascii_only_casemap ascii_only_decimal
                ascii_only_space sample_loads sample_stack).
Abbreviation passable0 :=
  (passable ascii_only_space sample_loads sample_stack).

Lemma user_message_output_run :
  sanitize0 user_message_record [] init =
  Ok (user_message_output, after_user_message).
Proof. apply user_message_run. Qed.

Lemma second_record_output_run :
  sanitize0 second_record [] after_user_message =
  Ok (second_record_output, after_user_message).
Proof. apply second_record_run. Qed.

Lemma sample_run :
  transcode0 sample_files = Returns (sample_state, sample_outputs).
Proof. vm_compute. reflexivity. Qed.

Lemma sample_loads_wf s x : sample_loads s = Parsed x -> wf_json x.
Proof.
  unfold sample_loads.
  repeat match goal with
         | |- context [if ?b then _ else _] => destruct b
         end;
    intros [= <-]; simpl; repeat split; try distinct_keys.
Qed.

Lemma leaf_depends_on_key_and_value_witness :
  reachable0 init /\ reachable0 after_user_message /\
  exists t,
    classify_0 (context_key [] [Key (lit "cwd")]) (lit "/Users/alice/proj")
      = Ok t /\
    at_path [Key (lit "cwd")] user_message_output = Some (JStr t) /\
    at_path [Key (lit "payload"); Key (lit "cwd")] second_record_output
      = Some (JStr t).
Proof.
  split; [apply reach_here|]. split; [exact after_user_message_reachable|].
  apply (leaf_depends_on_key_and_value
           ascii_only_casemap ascii_only_casemap ascii_only_decimal
           init user_message_record [] user_message_output
           after_user_message [Key (lit "cwd")]
           after_user_message second_record [] second_record_output
           after_user_message [Key (lit "payload"); Key (lit "cwd")]
           (lit "/Users/alice/proj")).
  - apply reach_here.
  - exact after_user_message_reachable.
  - exact wf_user_message_record.
  - exact wf_second_record.
  - exact user_message_output_run.
  - exact second_record_output_run.
  - reflexivity.
  - reflexivity.
  - reflexivity.
Defined.

Lemma free_text_redacted_witness :
  key_in (lit "content") TEXTISH_KEYS = true /\
  exists bytes,
    utf8_encode (lit "fix the bug in parser.py") = Some bytes /\
    at_path [Key (lit "content")] user_message_output =
      Some (JStr (lit "[REDACTED_"
                    ++ upper ascii_only_casemap (lit "content")
                    ++ lit " len="
                    ++ str_of_N
                         (N.of_nat (length (lit "fix the bug in parser.py")))
                    ++ lit " sha=" ++ firstn 8 (SHA256.hexdigest bytes)
                    ++ lit "]")).
Proof.
  split; [reflexivity|].
  apply (free_text_redacted
           ascii_only_casemap ascii_only_casemap ascii_only_decimal
           init user_message_record [] user_message_output
           after_user_message [Key (lit "content")] (lit "content")
           (lit "fix the bug in parser.py")).
  - apply reach_here.
  - exact wf_user_message_record.
  - exact user_message_output_run.
  - reflexivity.
  - reflexivity.
  - reflexivity.
  - reflexivity.
Defined.

Lemma href_record_run : sanitize0 href_record [] init = Ok (href_record, init).
Proof. vm_compute. reflexivity. Qed.

Lemma url_key_passes_other_values_witness :
  key_in (lit "href") URLISH_KEYS = true /\
  url_marker (lit "see the wiki page of alice") = false /\
  at_path [Key (lit "href")] href_record =
    Some (JStr (lit "see the wiki page of alice")).
Proof.
  split; [reflexivity|]. split; [reflexivity|].
  apply (url_key_passes_other_values
           ascii_only_casemap ascii_only_casemap ascii_only_decimal
           init href_record [] href_record init [Key (lit "href")]
           (lit "href") (lit "see the wiki page of alice")).
  - apply reach_here.
  - simpl. split; [distinct_keys | tauto].
  - exact href_record_run.
  - reflexivity.
  - reflexivity.
  - reflexivity.
  - reflexivity.
Defined.

Lemma session_record_run :
  sanitize0 session_record [] init = Ok (session_record, init).
Proof. vm_compute. reflexivity. Qed.

Lemma uuid_ids_kept_witness :
  key_in (lit "session_id") ID_KEYS = true /\
  Re.match_ UUIDISH_RE (lit "0199a2b4-7c1e-7f30-9d55-0123456789ab") = true /\
  at_path [Key (lit "session_id")] session_record =
    Some (JStr (lit "0199a2b4-7c1e-7f30-9d55-0123456789ab")).
Proof.
  split; [reflexivity|]. split; [reflexivity|].
  apply (uuid_ids_kept
           ascii_only_casemap ascii_only_casemap ascii_only_decimal
           init session_record [] session_record init
           [Key (lit "session_id")] (lit "session_id")
           (lit "0199a2b4-7c1e-7f30-9d55-0123456789ab")).
  - apply reach_here.
  - simpl. split; [distinct_keys | tauto].
  - exact session_record_run.
  - reflexivity.
  - reflexivity.
  - reflexivity.
  - reflexivity.
Defined.

Lemma stored_entries_wellformed_witness :
  reachable0 after_user_message /\
  string_map after_user_message = ∅ /\
  (forall v t, path_map after_user_message !! v = Some t ->
     length t = 25%nat /\ startswith (lit "/redacted/path/") t = true).
Proof.
  split; [exact after_user_message_reachable|].
  destruct (stored_entries_wellformed
              ascii_only_casemap ascii_only_casemap ascii_only_decimal
              after_user_message after_user_message_reachable)
    as (Hs & _ & Hp).
  split; [exact Hs | exact Hp].
Defined.

Lemma second_pass_reads_only_witness :
  sanitize0 user_message_record [] init =
    Ok (user_message_output, after_user_message) /\
  sanitize0 user_message_record [] after_user_message =
    Ok (user_message_output, after_user_message).
Proof.
  split; [exact user_message_output_run|].
  apply (second_pass_reads_only
           ascii_only_casemap ascii_only_casemap ascii_only_decimal
           user_message_record [] init user_message_output
           after_user_message after_user_message).
  - exact user_message_output_run.
  - apply reach_here.
Defined.

Lemma usage_record_run :
  sanitize0 usage_record [] after_user_message =
  Ok (JDict [ (lit "input_tokens", JInt 1200);
              (lit "flags", JList [ JBool true; JNull ]) ],
      after_user_message).
Proof. vm_compute. reflexivity. Qed.

Lemma stringless_value_unchanged_witness :
  wf_json usage_record /\ count_strings usage_record = 0%nat /\
  sanitize0 usage_record [] after_user_message =
    Ok (JDict [ (lit "input_tokens", JInt 1200);
                (lit "flags", JList [ JBool true; JNull ]) ],
        after_user_message) /\
  JDict [ (lit "input_tokens", JInt 1200);
          (lit "flags", JList [ JBool true; JNull ]) ] = usage_record /\
  after_user_message = after_user_message.
Proof.
  assert (Hwf : wf_json usage_record).
  { simpl. split; [distinct_keys | tauto]. }
  split; [exact Hwf|]. split; [reflexivity|].
  split; [exact usage_record_run|].
  apply (stringless_value_unchanged
           ascii_only_casemap ascii_only_casemap ascii_only_decimal
           usage_record [] after_user_message _ after_user_message Hwf).
  - reflexivity.
  - exact usage_record_run.
Defined.

Lemma classifier_stores_own_entry_witness :
  classify0 (lit "cwd") (lit "/Users/alice/proj") init =
    Ok (lit "/redacted/path/2711bd02af", after_user_message) /\
  (after_user_message = init \/
   (path_map init !! lit "/Users/alice/proj" = None /\
    after_user_message =
    mkSanitizer (<[lit "/Users/alice/proj" :=
                     lit "/redacted/path/2711bd02af"]> (path_map init))
                (url_map init) (string_map init)) \/
   (url_map init !! lit "/Users/alice/proj" = None /\
    after_user_message =
    mkSanitizer (path_map init)
                (<[lit "/Users/alice/proj" :=
                     lit "/redacted/path/2711bd02af"]> (url_map init))
                (string_map init))).
Proof.
  assert (H : classify0 (lit "cwd") (lit "/Users/alice/proj") init =
              Ok (lit "/redacted/path/2711bd02af", after_user_message))
    by (vm_compute; reflexivity).
  split; [exact H|].
  apply (classifier_stores_own_entry
           ascii_only_casemap ascii_only_casemap ascii_only_decimal
           (lit "cwd") (lit "/Users/alice/proj") init _ _ H).
Defined.

Lemma maps_grow_by_string_leaves_witness :
  (entries init <= entries after_user_message
   <= entries init + count_strings user_message_record)%nat.
Proof.
  apply (maps_grow_by_string_leaves
           ascii_only_casemap ascii_only_casemap ascii_only_decimal
           user_message_record [] init user_message_output
           after_user_message).
  exact user_message_output_run.
Defined.

Lemma shape_tests_alphabet_witness :
  Re.match_ (ISO_TS_RE ascii_only_decimal) (lit "2026-02-23T10:00:00Z")
  || Re.match_ (DATE_RE ascii_only_decimal) (lit "2026-02-23T10:00:00Z")
  = true /\
  Forall (fun c => digit ascii_only_decimal c = true
                   \/ In c (lit "-:.TZ") \/ c = 10)
         (lit "2026-02-23T10:00:00Z").
Proof.
  split; [reflexivity|].
  destruct (shape_tests_alphabet ascii_only_decimal
              (lit "2026-02-23T10:00:00Z")) as (H & _ & _).
  apply H. reflexivity.
Defined.

Lemma one_document_per_line_witness :
  transcode0 sample_files = Returns (sample_state, sample_outputs) /\
  Forall2 (fun lines ws =>
             length ws = length (nonblank ascii_only_space lines))
          sample_files sample_outputs /\
  line_count_total sample_state =
    N.of_nat (length (nonblank ascii_only_space (concat sample_files))).
Proof.
  split; [exact sample_run|].
  apply (one_document_per_line _ _ _ _ _ _ _ _ _ sample_run).
Defined.

Lemma type_counts_tally_witness :
  transcode0 sample_files = Returns (sample_state, sample_outputs) /\
  (forall b, default 0 (type_counts sample_state !! b) =
             N.of_nat (tally ascii_only_space sample_loads b
                             (concat sample_files))) /\
  total_count (type_counts sample_state) = line_count_total sample_state.
Proof.
  split; [exact sample_run|].
  apply (type_counts_tally _ _ _ _ _ _ _ _ _ sample_run).
Defined.

Lemma malformed_line_survives_witness :
  blank ascii_only_space line_broken = false /\
  sample_loads line_broken = JSONDecodeError /\
  utf8_encode line_broken <> None /\
  exists bytes,
    utf8_encode (rstrip ascii_only_space line_broken) = Some bytes /\
    process_line0 line_broken (mkTranscoder init 0 ∅) [] =
    Returns
      (mkTranscoder init (0 + 1) (bump (lit "malformed_line") ∅),
       [] ++ [Line (malformed_record
                      (lit "[REDACTED_RAW len="
                         ++ str_of_N
                              (N.of_nat
                                 (length (rstrip ascii_only_space
                                                 line_broken)))
                         ++ lit " sha=" ++ firstn 8 (SHA256.hexdigest bytes)
                         ++ lit "]"))
                   false]).
Proof.
  split; [reflexivity|]. split; [reflexivity|].
  split; [vm_compute; discriminate|].
  apply (malformed_line_survives
           ascii_only_casemap ascii_only_casemap ascii_only_decimal
           ascii_only_space sample_loads sample_stack line_broken
           (mkTranscoder init 0 ∅) []).
  - reflexivity.
  - reflexivity.
  - vm_compute. discriminate.
Defined.

Lemma non_object_line_aborts_witness :
  blank ascii_only_space line_list = false /\
  sample_loads line_list = Parsed (JList [JInt 1]) /\
  process_lines0 ([line_turn] ++ line_list :: [line_broken])
                 (mkTranscoder init 0 ∅) [] =
  Raises AttributeError.
Proof.
  split; [reflexivity|]. split; [reflexivity|].
  eapply (non_object_line_aborts
            ascii_only_casemap ascii_only_casemap ascii_only_decimal
            ascii_only_space sample_loads sample_stack [line_turn] line_list
            [line_broken] (JList [JInt 1]) (mkTranscoder init 0 ∅) []).
  - vm_compute. reflexivity.
  - reflexivity.
  - reflexivity.
  - intros items. discriminate.
Defined.

Lemma sample_files_passable :
  Forall (Forall passable0) sample_files.
Proof.
  unfold sample_files.
  apply List.Forall_cons;
    [apply List.Forall_cons;
       [|apply List.Forall_cons;
           [|apply List.Forall_cons; [|apply List.Forall_nil]]]
    |apply List.Forall_cons;
       [apply List.Forall_cons; [|apply List.Forall_nil]
       |apply List.Forall_nil]].
  - right. vm_compute. split; [eauto|]. repeat split; discriminate.
  - left. reflexivity.
  - right. vm_compute. discriminate.
  - right. vm_compute. split; [eauto|]. repeat split; discriminate.
Qed.

Lemma passable_lines_complete_witness :
  Forall (Forall passable0) sample_files /\
  exists t outs, transcode0 sample_files = Returns (t, outs).
Proof.
  split; [exact sample_files_passable|].
  apply (passable_lines_complete
           ascii_only_casemap ascii_only_casemap ascii_only_decimal
           ascii_only_space sample_loads sample_stack sample_files).
  exact sample_files_passable.
Defined.

Lemma output_mirrors_input_witness :
  transcode0 sample_files = Returns (sample_state, sample_outputs) /\
  Forall2
    (fun lines ws =>
       Forall2
         (fun line w =>
            match sample_loads line with
            | JSONDecodeError =>
                compact w = false /\
                exists bytes,
                  utf8_encode (rstrip ascii_only_space line) = Some bytes /\
                  doc w =
                  malformed_record
                    (lit "[REDACTED_RAW len="
                       ++ str_of_N
                            (N.of_nat
                               (length (rstrip ascii_only_space line)))
                       ++ lit " sha=" ++ firstn 8 (SHA256.hexdigest bytes)
                       ++ lit "]")
            | Parsed obj => compact w = true /\ shape (doc w) = shape obj
            | LoadsRaises _ => False
            end)
         (nonblank ascii_only_space lines) ws)
    sample_files sample_outputs.
Proof.
  split; [exact sample_run|].
  apply (output_mirrors_input
           ascii_only_casemap ascii_only_casemap ascii_only_decimal
           ascii_only_space sample_loads sample_stack sample_loads_wf
           sample_files sample_state sample_outputs sample_run).
Defined.

Lemma same_value_same_replacement_in_run_witness :
  transcode0 sample_files = Returns (sample_state, sample_outputs) /\
  exists r,
    classify_0 (context_key [] [Key (lit "cwd")]) (lit "/Users/alice/proj")
      = Ok r /\
    at_path [Key (lit "cwd")]
      (JDict [ (lit "type", JStr (lit "turn"));
               (lit "cwd", JStr (lit "/redacted/path/2711bd02af"));
               (lit "count", JInt 3) ]) = Some (JStr r) /\
    at_path [Key (lit "payload"); Key (lit "cwd")]
      (JDict [ (lit "payload",
                JDict [ (lit "cwd",
                         JStr (lit "/redacted/path/2711bd02af")) ]) ])
      = Some (JStr r).
Proof.
  split; [exact sample_run|].
  apply (same_value_same_replacement_in_run
           ascii_only_casemap ascii_only_casemap ascii_only_decimal
           ascii_only_space sample_loads sample_stack sample_loads_wf
           sample_files sample_state sample_outputs
           line_turn
           (Line (JDict [ (lit "type", JStr (lit "turn"));
                          (lit "cwd", JStr (lit "/redacted/path/2711bd02af"));
                          (lit "count", JInt 3) ]) true)
           doc_turn [Key (lit "cwd")]
           line_payload
           (Line (JDict
                    [ (lit "payload",
                       JDict [ (lit "cwd",
                                JStr (lit "/redacted/path/2711bd02af")) ]) ])
                 true)
           doc_payload [Key (lit "payload"); Key (lit "cwd")]
           (lit "/Users/alice/proj") sample_run).
  - vm_compute. left. reflexivity.
  - vm_compute. right. right. left. reflexivity.
  - reflexivity.
  - reflexivity.
  - reflexivity.
  - reflexivity.
  - reflexivity.
Defined.
